(** * possiblyEquals: the encoded-string matcher of scripts/tools/debug-true-in-code.py

    The development embeds the Python function [possiblyEquals] together with
    its two nested helpers [get_options] and [dfs], and states the properties
    of the matcher over that embedding.  It also embeds the selection made
    by scripts/tools/create-smart-function-discovery.py, the script that
    looks for such a function in a namespace (module [Discovery]).

    Conventions of the embedding.
    - A Python [str] is a [string]; a character is an [ascii], read as the
      code point of the same number (code points below 256).
    - Cursors, lengths and slice bounds are [nat] (the program never builds a
      negative index); the imbalance [diff] and the values of digit segments
      are [Z].
    - A computation is a value of the monad [M]: it carries the list of calls
      made so far (every entry into [dfs] and into [get_options]) and ends
      with a returned value, a raised exception, or the exhaustion of the
      fuel that bounds the recursion of [dfs].
    - [dfs] and [possiblyEquals] give the search on an interpreter that
      sets no limit to nested calls; [dfs_limited] and
      [possiblyEquals_limited] run the same body under a recursion limit
      and raise RecursionError beyond it. *)

From Stdlib Require Import String Ascii ZArith List Bool Arith Lia.
Import ListNotations.

(* ================================================================== *)
(** ** The Python runtime used by the program *)
(* ================================================================== *)

Module Py.

(** Exceptions the program can raise: [ValueError] and [IndexError] by the
    built-ins it uses, [RecursionError] by the interpreter when calls nest
    beyond its recursion limit. *)
Inductive exn : Type :=
| ValueError
| IndexError
| RecursionError.

(** Calls recorded while the program runs. *)
Inductive event : Type :=
| EvDfs (i j : nat) (diff : Z)
| EvGetOptions (segment : string).

(** How a computation ends. *)
Inductive outcome (A : Type) : Type :=
| Ret (a : A)
| Raise (e : exn)
| OutOfFuel.

Arguments Ret {A} a.
Arguments Raise {A} e.
Arguments OutOfFuel {A}.

Definition M (A : Type) : Type := (list event * outcome A)%type.

Definition trace {A} (m : M A) : list event := fst m.
Definition result {A} (m : M A) : outcome A := snd m.

Definition ret {A} (a : A) : M A := ([], Ret a).
Definition raise {A} (e : exn) : M A := ([], Raise e).
Definition out_of_fuel {A} : M A := ([], OutOfFuel).
Definition tell (ev : event) : M unit := ([ev], Ret tt).

Definition bind {A B} (m : M A) (f : A -> M B) : M B :=
  match m with
  | (t, Ret a) => let '(t', o) := f a in (t ++ t', o)
  | (t, Raise e) => (t, Raise e)
  | (t, OutOfFuel) => (t, OutOfFuel)
  end.

Declare Scope py_scope.
Delimit Scope py_scope with py.
Notation "x <- m ;; k" := (bind m (fun x => k))
  (at level 61, m at next level, right associativity) : py_scope.
Notation "m ;; k" := (bind m (fun _ => k))
  (at level 61, right associativity) : py_scope.

Local Open Scope py_scope.

(** [len(s)] *)
Definition len (s : string) : nat := String.length s.

(** [s[i]] for [i >= 0]: IndexError outside the string. *)
Definition getitem (s : string) (i : nat) : M ascii :=
  match String.get i s with
  | Some c => ret c
  | None => raise IndexError
  end.

(** [s[a:b]] for [0 <= a], [0 <= b]: bounds are clamped to the string and
    the slice is empty when [b <= a]. *)
Definition slice (s : string) (a b : nat) : string := substring a (b - a) s.

(** [range(a, b)] *)
Definition range (a b : nat) : list nat := seq a (b - a).

Definition code (c : ascii) : nat := nat_of_ascii c.

Definition between (lo hi n : nat) : bool := (lo <=? n) && (n <=? hi).

(** [c.isalpha()] on code points below 256: the ASCII letters and the
    Latin-1 letters (feminine and masculine ordinal, micro sign, U+00C0 to
    U+00FF without the multiplication and division signs). *)
Definition isalpha (c : ascii) : bool :=
  let n := code c in
  between 65 90 n || between 97 122 n
  || (n =? 170) || (n =? 181) || (n =? 186)
  || between 192 214 n || between 216 246 n || between 248 255 n.

(** [c.isdigit()] on code points below 256: the ASCII digits and the
    superscripts two, three and one. *)
Definition isdigit (c : ascii) : bool :=
  let n := code c in
  between 48 57 n || (n =? 178) || (n =? 179) || (n =? 185).

(** The value of a decimal digit ['0'..'9']. *)
Definition digit_value (c : ascii) : option Z :=
  let n := code c in
  if between 48 57 n then Some (Z.of_nat (n - 48)) else None.

Fixpoint int_digits (acc : Z) (s : string) : option Z :=
  match s with
  | EmptyString => Some acc
  | String c s' =>
      match digit_value c with
      | Some d => int_digits (10 * acc + d) s'
      | None => None
      end
  end.

(** [int(s)] on the strings the program passes to it: strings of characters
    that satisfy [isdigit], the empty string included.  The value of a
    non-empty string of decimal digits is returned (leading zeros allowed);
    the empty string and a string with a superscript digit raise ValueError.
    The signs, blanks and underscores that [int] also accepts never occur
    in such strings and are left out: the model raises on them too.
    CPython's limit on the number of digits of one literal is left out as
    well. *)
Definition py_int (s : string) : M Z :=
  match s with
  | EmptyString => raise ValueError
  | _ => match int_digits 0 s with
         | Some v => ret v
         | None => raise ValueError
         end
  end.

(** A [for] loop over [l] that updates an accumulator; the body answers
    [true] in the first component when it executes [break]. *)
Fixpoint for_acc {A S} (l : list A) (body : A -> S -> M (bool * S)) (s : S)
  : M S :=
  match l with
  | [] => ret s
  | x :: l' =>
      r <- body x s ;;
      if fst r then ret (snd r) else for_acc l' body (snd r)
  end.

(** A [for] loop over [l] whose body may execute [return True] (the body
    answers [true]) and that is followed by [return False]. *)
Fixpoint for_any {A} (l : list A) (body : A -> M bool) : M bool :=
  match l with
  | [] => ret false
  | x :: l' =>
      b <- body x ;;
      if b then ret true else for_any l' body
  end.

End Py.

Import Py.
Local Open Scope py_scope.

(* ================================================================== *)
(** ** The program *)
(* ================================================================== *)

(** [get_options(segment)], lines 4-22.  The three nested loops run over
    [range(1, n+1)], [range(i, n+1)] and [range(j, n+1)]; each of the three
    tests of the innermost body appends one sum to [res] and leaves the
    innermost loop. *)
Definition get_options (segment : string) : M (list Z) :=
  tell (EvGetOptions segment) ;;
  if len segment =? 0 then ret [0%Z]
  else
    let n := len segment in
    for_acc (range 1 (n + 1)) (fun i res =>
      res <- for_acc (range i (n + 1)) (fun j res =>
        res <- for_acc (range j (n + 1)) (fun k res =>
          if i =? n then
            v <- py_int segment ;;
            ret (true, res ++ [v])
          else if j =? n then
            a <- py_int (slice segment 0 i) ;;
            b <- py_int (slice segment i n) ;;
            ret (true, res ++ [(a + b)%Z])
          else if k =? n then
            a <- py_int (slice segment 0 i) ;;
            b <- py_int (slice segment i j) ;;
            c <- py_int (slice segment j n) ;;
            ret (true, res ++ [(a + b + c)%Z])
          else ret (false, res)) res ;;
        ret (false, res)) res ;;
      ret (false, res)) [].

(** The [while] loop of lines 46-50 and 66-70: from position [k], collect
    the characters that satisfy [isdigit] into [num_seg], and stop after the
    append that makes [num_seg] longer than 3.  The loop runs at most
    [len s - k] times; [n] bounds the number of iterations. *)
Fixpoint while_digit (n : nat) (s : string) (k : nat) (num_seg : list ascii)
  : list ascii :=
  match n with
  | O => num_seg
  | S n' =>
      match String.get k s with
      | Some c =>
          if isdigit c then
            let num_seg := num_seg ++ [c] in
            if 3 <? length num_seg then num_seg
            else while_digit n' s (k + 1) num_seg
          else num_seg
      | None => num_seg
      end
  end.

Section Search.

Variables s1 s2 : string.

(** The body of [dfs(i, j, diff)], lines 27-76, with its recursive calls
    made through the parameter [dfs]. *)
Definition dfs_body (dfs : nat -> nat -> Z -> M bool)
  (i j : nat) (diff : Z) : M bool :=
  if (i =? len s1) && (j =? len s2) then ret (diff =? 0)%Z
  else if (diff =? 0)%Z then
    letters <-
      (if (i <? len s1) && (j <? len s2) then
         a <- getitem s1 i ;;
         if isalpha a then (b <- getitem s2 j ;; ret (isalpha b))
         else ret false
       else ret false) ;;
    if letters then
      a <- getitem s1 i ;;
      b <- getitem s2 j ;;
      if negb (Ascii.eqb a b) then ret false
      else dfs (i + 1) (j + 1) 0%Z
    else ret false
  else if (diff >? 0)%Z then
    if len s2 <=? j then ret false
    else
      b <- getitem s2 j ;;
      if isalpha b then dfs i (j + 1) (diff - 1)%Z
      else
        let num_seg := while_digit (len s2 - j) s2 j [] in
        for_any (range 1 (length num_seg + 1)) (fun seg_len =>
          let seg := string_of_list_ascii (firstn seg_len num_seg) in
          vals <- get_options seg ;;
          for_any vals (fun val => dfs i (j + seg_len) (diff - val)%Z))
  else
    if len s1 <=? i then ret false
    else
      a <- getitem s1 i ;;
      if isalpha a then dfs (i + 1) j (diff + 1)%Z
      else
        let num_seg := while_digit (len s1 - i) s1 i [] in
        for_any (range 1 (length num_seg + 1)) (fun seg_len =>
          let seg := string_of_list_ascii (firstn seg_len num_seg) in
          vals <- get_options seg ;;
          for_any vals (fun val => dfs (i + seg_len) j (diff + val)%Z)).

(** [dfs]: every entry is recorded, and [fuel] bounds the number of nested
    calls. *)
Fixpoint dfs (fuel : nat) (i j : nat) (diff : Z) : M bool :=
  match fuel with
  | O => out_of_fuel
  | S fuel' =>
      tell (EvDfs i j diff) ;;
      dfs_body (dfs fuel') i j diff
  end.

(** [dfs] under the recursion limit of the interpreter.  [frames] is the
    number of nested activations of [dfs] the interpreter still allows when
    the call is made: a call with none left raises RecursionError instead of
    entering the function, and the exception goes up through every caller
    ([dfs] catches nothing). *)
Fixpoint dfs_limited (frames : nat) (i j : nat) (diff : Z) : M bool :=
  match frames with
  | O => raise RecursionError
  | S frames' =>
      tell (EvDfs i j diff) ;;
      dfs_body (dfs_limited frames') i j diff
  end.

(** Characters still to be read from the two cursors. *)
Definition remaining (i j : nat) : nat := (len s1 - i) + (len s2 - j).

(** The states a call of [dfs(i, j, _)] may call: no cursor moves back, at
    least one moves forward, and fewer characters remain to be read. *)
Definition advanced (i j i' j' : nat) : Prop :=
  i <= i' /\ j <= j' /\ i + j < i' + j'
  /\ remaining i' j' < remaining i j.

End Search.

(** [possiblyEquals(s1, s2)], line 78.  The fuel allows [len s1 + len s2]
    calls nested below the first one. *)
Definition possiblyEquals (s1 s2 : string) : M bool :=
  dfs s1 s2 (S (len s1 + len s2)) 0 0 0%Z.

(** [possiblyEquals(s1, s2)] under the recursion limit: [frames] nested
    activations of [dfs] are allowed below the call of line 78 (with
    CPython's default limit of 1000, fewer than 1000). *)
Definition possiblyEquals_limited (frames : nat) (s1 s2 : string) : M bool :=
  dfs_limited s1 s2 frames 0 0 0%Z.

(** The spec's name of the entry point. *)
Definition equivalent (s1 s2 : string) : M bool := possiblyEquals s1 s2.

Open Scope string_scope.
Open Scope list_scope.
Open Scope nat_scope.

(* ================================================================== *)
(** ** Vocabulary of the properties *)
(* ================================================================== *)

(** The suffix of [s] that starts at cursor [i]. *)
Fixpoint drop (i : nat) (s : string) : string :=
  match i, s with
  | O, _ => s
  | S i', String _ s' => drop i' s'
  | S _, EmptyString => EmptyString
  end.

(** [p] holds of every character of [s]. *)
Fixpoint all_chars (p : ascii -> bool) (s : string) : bool :=
  match s with
  | EmptyString => true
  | String c s' => p c && all_chars p s'
  end.

(** What the synchronized search decides on two suffixes: they are read in
    lock-step, and every pair of characters read is a pair of equal
    letters. *)
Fixpoint sync (a b : string) : bool :=
  match a, b with
  | EmptyString, EmptyString => true
  | String x a', String y b' =>
      isalpha x && isalpha y && Ascii.eqb x y && sync a' b'
  | _, _ => false
  end.

(** A recorded call is synchronized when it is an entry into [dfs] with
    [diff = 0]. *)
Definition sync_call (ev : event) : Prop :=
  match ev with
  | EvDfs _ _ diff => diff = 0%Z
  | EvGetOptions _ => False
  end.

(** ['a'..'z'] *)
Definition lowercase (c : ascii) : bool := between 97 122 (code c).

(** ['0'..'9'] *)
Definition decimal (c : ascii) : bool := between 48 57 (code c).

(** The alphabet of the matcher: [a-z0-9]. *)
Definition well_formed_char (c : ascii) : bool := lowercase c || decimal c.

Definition well_formed (s : string) : bool := all_chars well_formed_char s.

(** Every character of [s] is a lowercase letter. *)
Definition letters_only (s : string) : bool := all_chars lowercase s.

(** Some character of [s] is a digit. *)
Fixpoint has_digit (s : string) : bool :=
  match s with
  | EmptyString => false
  | String c s' => decimal c || has_digit s'
  end.

(** The cursor [i] of [s] stands on a character that satisfies [isdigit]. *)
Definition at_digit (s : string) (i : nat) : bool :=
  match String.get i s with
  | Some c => isdigit c
  | None => false
  end.

(** The computation ended by returning or raising. *)
Definition finished {A} (o : outcome A) : bool :=
  match o with
  | Ret _ | Raise _ => true
  | OutOfFuel => false
  end.

(** A run that records only calls satisfying [E] and raises only
    exceptions satisfying [X]. *)
Definition within {A} (E : event -> Prop) (X : exn -> Prop) (m : M A) : Prop :=
  Forall E (trace m)
  /\ match result m with
     | Raise e => X e
     | _ => True
     end.

(** A segment of one to four characters that all satisfy [isdigit]. *)
Definition digit_window (segment : string) : Prop :=
  1 <= len segment <= 4 /\ all_chars isdigit segment = true.

(** A call made by a search that started at the cursors [i0], [j0]: an
    entry into [dfs] whose cursors are not behind the start and not beyond
    the ends of the strings, or a call of [get_options] on a digit
    window. *)
Definition call_in_bounds (s1 s2 : string) (i0 j0 : nat) (ev : event) : Prop :=
  match ev with
  | EvDfs i j _ => i0 <= i <= len s1 /\ j0 <= j <= len s2
  | EvGetOptions segment => digit_window segment
  end.

(** [c * n]: the string of [n] characters [c]. *)
Fixpoint repeat_char (c : ascii) (n : nat) : string :=
  match n with
  | O => EmptyString
  | S n' => String c (repeat_char c n')
  end.

(** The number of leading positions at which [a] and [b] carry the same
    letter. *)
Fixpoint common_letters (a b : string) : nat :=
  match a, b with
  | String x a', String y b' =>
      if isalpha x && isalpha y && Ascii.eqb x y
      then S (common_letters a' b') else 0
  | _, _ => 0
  end.

(* ================================================================== *)
(** ** The function discovery of scripts/tools/create-smart-function-discovery.py *)
(* ================================================================== *)

(** The script looks through the names of the current namespace for the
    functions a user defined and picks one of them.  It runs at module
    level, inside the namespace it scans: the names it assigns are names of
    that namespace, and the built-ins it calls are looked up there first.

    The namespace is the list of the items of [globals()] in their order,
    with string keys.  Of an object the model keeps what the script asks of
    it: the answers of [callable] and [hasattr] (false also when the test
    raises, which the script's bare [except] turns into a skip), the line
    number of its code, an integer, and its truth value.  The messages the
    script prints are left out; the branch that made the choice is kept as
    the [reason] of the selection. *)
Module Discovery.

Record pyobject : Type := {
  callable : bool;              (* callable(obj) *)
  has_name : bool;              (* hasattr(obj, '__name__') *)
  has_code : bool;              (* hasattr(obj, '__code__') *)
  co_firstlineno : option nat;  (* obj.__code__.co_firstlineno, when
                                   obj.__code__ has that attribute *)
  truthy : bool                 (* bool(obj) *)
}.

Definition entry : Type := (string * pyobject)%type.

(** A string or a list, as the script binds to its own variables: not
    callable, without [__name__] and [__code__]. *)
Definition data_value : pyobject :=
  {| callable := false; has_name := false; has_code := false;
     co_firstlineno := None; truthy := false |}.

(** [globals()[name]]; [None] stands for KeyError. *)
Fixpoint lookup (name : string) (g : list entry) : option pyobject :=
  match g with
  | [] => None
  | (n, v) :: g' => if String.eqb n name then Some v else lookup name g'
  end.

(** The assignment [name = v] at module level: the key keeps its place
    when it is bound already and is added at the end otherwise. *)
Fixpoint assign (name : string) (v : pyobject) (g : list entry) : list entry :=
  match g with
  | [] => [(name, v)]
  | (n, v') :: g' =>
      if String.eqb n name then (n, v) :: g'
      else (n, v') :: assign name v g'
  end.

(** [name.startswith('_')] *)
Definition startswith_underscore (name : string) : bool :=
  match name with
  | String c _ => Ascii.eqb c "_"%char
  | EmptyString => false
  end.

(** [name in names] *)
Definition name_in (name : string) (names : list string) : bool :=
  existsb (String.eqb name) names.

(** The two lists of line 18 and line 19. *)
Definition excluded_builtins : list string :=
  ["print"; "len"; "max"; "min"; "sum"; "abs"; "all"; "any"; "bool"; "dict";
   "list"; "set"; "str"; "int"; "float"; "range"; "enumerate"; "zip"; "map";
   "filter"; "sorted"; "reversed"; "type"; "isinstance"; "hasattr";
   "getattr"; "setattr"; "vars"; "dir"; "help"; "input"; "open"; "round";
   "pow"; "divmod"]%string.

Definition excluded_modules : list string :=
  ["time"; "json"; "os"; "sys"; "math"; "random"; "collections";
   "itertools"; "functools"; "operator"; "re"; "datetime"; "copy";
   "Counter"; "defaultdict"; "OrderedDict"]%string.

(** The test of lines 15-20. *)
Definition is_user_function (e : entry) : bool :=
  let '(name, obj) := e in
  callable obj && has_name obj
  && negb (startswith_underscore name)
  && negb (name_in name excluded_builtins)
  && negb (name_in name excluded_modules)
  && has_code obj.

(** The loop of lines 11-23 over the names listed at line 7.  The loop
    variable [name] and the variable [obj] are names of the namespace
    [g]: [name] is bound to the key, a string, before the entry is read,
    and [obj] keeps the object read last. *)
Fixpoint scan (all_names : list string) (g : list entry)
  (user_functions : list entry) : list entry :=
  match all_names with
  | [] => user_functions
  | name :: rest =>
      let g := assign "name" data_value g in
      match lookup name g with
      | Some obj =>
          let g := assign "obj" obj g in
          scan rest g
            (if is_user_function (name, obj)
             then user_functions ++ [(name, obj)] else user_functions)
      | None => scan rest g user_functions
      end
  end.

(** Lines 7-23: the keys are listed first, then [all_names] and
    [user_functions] are bound, then the loop runs. *)
Definition user_functions (namespace : list entry) : list entry :=
  let all_names := map fst namespace in
  let g := assign "all_names" data_value namespace in
  let g := assign "user_functions" data_value g in
  scan all_names g [].

(** [c.lower()] on code points below 256. *)
Definition lower_char (c : ascii) : ascii :=
  let n := code c in
  if between 65 90 n || between 192 214 n || between 216 222 n
  then ascii_of_nat (n + 32) else c.

(** [s.lower()] *)
Fixpoint lower (s : string) : string :=
  match s with
  | EmptyString => EmptyString
  | String c s' => String (lower_char c) (lower s')
  end.

(** [needle in hay] on strings. *)
Fixpoint contains (needle hay : string) : bool :=
  String.prefix needle hay
  || match hay with
     | EmptyString => false
     | String _ hay' => contains needle hay'
     end.

(** The list of line 42, in its order. *)
Definition algorithm_keywords : list string :=
  ["solution"; "solve"; "algorithm"; "main"; "process"; "calculate";
   "compute"; "find"; "search"; "sort"; "optimize"]%string.

(** [keyword.lower() in name.lower()], line 46. *)
Definition matches (keyword : string) (e : entry) : bool :=
  contains (lower keyword) (lower (fst e)).

(** The branch of the script that made the choice. *)
Inductive reason : Type :=
| Unique                      (* line 33: the only function *)
| Keyword (keyword : string)  (* line 47: a keyword of line 42 *)
| LastDefined                 (* line 66: the greatest line number *)
| FallbackFirst.              (* lines 70 and 74: the first function *)

(** The values of [selected_function_name] and [algorithm_function] when
    the script ends; [NotFound] when both are still [None]. *)
Inductive selection : Type :=
| Selected (how : reason) (name : string) (func : pyobject)
| NotFound.

(** The inner loop of lines 45-49: the first function whose name contains
    the keyword. *)
Fixpoint first_match (keyword : string) (fs : list entry) : option entry :=
  match fs with
  | [] => None
  | e :: fs' => if matches keyword e then Some e else first_match keyword fs'
  end.

(** [bool(algorithm_function)]: [None] is false. *)
Definition is_true (chosen : option (reason * entry)) : bool :=
  match chosen with
  | Some (_, (_, func)) => truthy func
  | None => false
  end.

(** The outer loop of lines 44-51: the keywords are tried in order; a
    keyword that finds a function assigns it, and the loop is left when
    [algorithm_function] is true. *)
Fixpoint by_keyword (keywords : list string) (fs : list entry)
  (chosen : option (reason * entry)) : option (reason * entry) :=
  match keywords with
  | [] => chosen
  | keyword :: keywords' =>
      let chosen :=
        match first_match keyword fs with
        | Some e => Some (Keyword keyword, e)
        | None => chosen
        end in
      if is_true chosen then chosen else by_keyword keywords' fs chosen
  end.

(** The loop of lines 58-61: the functions that have a line number, each
    with it. *)
Fixpoint with_line (fs : list entry) : list (nat * entry) :=
  match fs with
  | [] => []
  | (name, func) :: fs' =>
      match has_code func, co_firstlineno func with
      | true, Some line_no => (line_no, (name, func)) :: with_line fs'
      | _, _ => with_line fs'
      end
  end.

(** [list.sort(key=lambda x: x[0])], line 65: a stable sort by line
    number, here by insertion behind the elements that are not greater. *)
Fixpoint insert_by_line (x : nat * entry) (sorted : list (nat * entry))
  : list (nat * entry) :=
  match sorted with
  | [] => [x]
  | y :: ys =>
      if fst y <=? fst x then y :: insert_by_line x ys else x :: y :: ys
  end.

Definition sort_by_line (l : list (nat * entry)) : list (nat * entry) :=
  fold_left (fun sorted x => insert_by_line x sorted) l [].

(** Lines 56-75, reached with two functions or more, [first] and
    [others]: the function defined last, or the first one when no function
    has a line number. *)
Definition by_line (first : entry) (others : list entry) : selection :=
  match with_line (first :: others) with
  | [] => Selected FallbackFirst (fst first) (snd first)
  | x :: xs =>
      let '(_, (name, func)) := last (sort_by_line (x :: xs)) x in
      Selected LastDefined name func
  end.

(** Lines 27-82: the choice among the user functions.  With two or more,
    the choice by line number is made when the keywords left
    [algorithm_function] false (line 54). *)
Definition select (fs : list entry) : selection :=
  match fs with
  | [] => NotFound
  | [(name, func)] => Selected Unique name func
  | first :: others =>
      match by_keyword algorithm_keywords fs None with
      | Some (how, (name, func)) =>
          if truthy func then Selected how name func
          else by_line first others
      | None => by_line first others
      end
  end.

(** The built-ins the script calls by name (lines 4, 7, 13, 15, 16, 25,
    31, 36 and the other calls of [print]). *)
Definition called_builtins : list string :=
  ["print"; "list"; "globals"; "callable"; "hasattr"; "len"]%string.

(** The namespace binds one of [names]. *)
Definition binds (names : list string) (namespace : list entry) : bool :=
  existsb (fun e => name_in (fst e) names) namespace.

(** The script, from the namespace to its selection.  When the namespace
    binds the name of a built-in the script calls, the script calls the
    object of the namespace instead, and what it then does depends on that
    object: the model gives no answer ([None]). *)
Definition discover (namespace : list entry) : option selection :=
  if binds called_builtins namespace then None
  else Some (select (user_functions namespace)).

(** The names the script assigns before or while it reads the entries. *)
Definition script_variables : list string :=
  ["all_names"; "user_functions"; "name"; "obj"]%string.

(** The keys of a dict are distinct. *)
Fixpoint distinct_keys (g : list entry) : bool :=
  match g with
  | [] => true
  | (n, _) :: g' => negb (name_in n (map fst g')) && distinct_keys g'
  end.

(** What holds of every entry the loop of lines 11-23 lists: it passes the
    test, its name is a key of the namespace and none of the three
    variables bound to data before they are read, and, unless its name is
    [obj], it is an entry of the namespace. *)
Definition listed (namespace : list entry) (e : entry) : Prop :=
  is_user_function e = true
  /\ In (fst e) (map fst namespace)
  /\ name_in (fst e) ["all_names"; "user_functions"; "name"]%string = false
  /\ (String.eqb (fst e) "obj" = false -> In e namespace).

(** A function object defined at line [n]. *)
Definition function_at (n : nat) : pyobject :=
  {| callable := true; has_name := true; has_code := true;
     co_firstlineno := Some n; truthy := true |}.

(** The line number of an entry, 0 when it has none. *)
Definition line_of (e : entry) : nat :=
  match co_firstlineno (snd e) with
  | Some n => n
  | None => 0
  end.

(** No name of [fs] contains a keyword of [keywords]. *)
Definition no_match (keywords : list string) (fs : list entry) : bool :=
  forallb (fun k => forallb (fun e => negb (matches k e)) fs) keywords.

(** The code of the entry carries a line number. *)
Definition has_line (e : entry) : bool :=
  match co_firstlineno (snd e) with
  | Some _ => true
  | None => false
  end.

(** A list in which the line numbers do not decrease. *)
Inductive by_line_sorted : list (nat * entry) -> Prop :=
| sorted_nil : by_line_sorted []
| sorted_cons x l :
    Forall (fun y => fst x <= fst y) l -> by_line_sorted l ->
    by_line_sorted (x :: l).

End Discovery.

(* ================================================================== *)
(** ** The test cases of the script *)
(* ================================================================== *)

Example run_a_a : possiblyEquals "a" "a" =
  ([EvDfs 0 0 0; EvDfs 1 1 0], Ret true).
Proof. reflexivity. Qed.

Example run_b_1 : possiblyEquals "b" "1" = ([EvDfs 0 0 0], Ret false).
Proof. reflexivity. Qed.

Example run_abc_123 : possiblyEquals "abc" "123" = ([EvDfs 0 0 0], Ret false).
Proof. reflexivity. Qed.

(** Runs of the helpers and of the branches the entry point does not
    reach, traced by hand on the source. *)
Example run_get_options_empty : get_options "" = ([EvGetOptions ""], Ret [0%Z]).
Proof. reflexivity. Qed.

Example run_get_options_5 : get_options "5" = ([EvGetOptions "5"], Ret [5%Z]).
Proof. reflexivity. Qed.

Example run_while_digit :
  while_digit (len "a12345b" - 1) "a12345b" 1 []
  = ["1"%char; "2"%char; "3"%char; "4"%char].
Proof. reflexivity. Qed.

Example run_dfs_positive : dfs "" "3" 2 0 0 3 =
  ([EvDfs 0 0 3; EvGetOptions "3"; EvDfs 0 1 0], Ret true).
Proof. reflexivity. Qed.

Example run_dfs_negative : dfs "12" "" 3 0 0 (-3) =
  ([EvDfs 0 0 (-3); EvGetOptions "1"; EvDfs 1 0 (-2); EvGetOptions "2";
    EvDfs 2 0 0], Ret true).
Proof. reflexivity. Qed.

Example run_dfs_raises : dfs "12" "" 3 0 0 (-4) =
  ([EvDfs 0 0 (-4); EvGetOptions "1"; EvDfs 1 0 (-3); EvGetOptions "2";
    EvDfs 2 0 (-1); EvGetOptions "12"], Raise ValueError).
Proof. reflexivity. Qed.

(* ================================================================== *)
(** ** Laws of the monad *)
(* ================================================================== *)

Lemma bind_ret_l {A B} (a : A) (f : A -> M B) : bind (ret a) f = f a.
Proof. unfold bind, ret. destruct (f a) as [t o]. reflexivity. Qed.

Lemma bind_raise {A B} (e : exn) (f : A -> M B) : bind (raise e) f = raise e.
Proof. reflexivity. Qed.

Lemma trace_tell_bind {B} (ev : event) (m : M B) :
  trace (tell ev ;; m) = ev :: trace m.
Proof. unfold bind, tell, trace. destruct m as [t o]. reflexivity. Qed.

Lemma result_tell_bind {B} (ev : event) (m : M B) :
  result (tell ev ;; m) = result m.
Proof. unfold bind, tell, result. destruct m as [t o]. reflexivity. Qed.

(* ================================================================== *)
(** ** Strings: cursors and suffixes *)
(* ================================================================== *)

Lemma get_lt (s : string) : forall i, i < len s -> exists c, String.get i s = Some c.
Proof.
  unfold len. induction s as [|c s IH]; intros i Hi; simpl in Hi; [lia|].
  destruct i as [|i]; simpl; [eauto|]. apply IH. lia.
Qed.

Lemma get_some_lt (s : string) : forall i c, String.get i s = Some c -> i < len s.
Proof.
  unfold len. induction s as [|c s IH]; intros i d H; simpl in H; [discriminate|].
  destruct i as [|i]; simpl; [lia|]. apply IH in H. lia.
Qed.

Lemma drop_get (s : string) : forall i c,
  String.get i s = Some c -> drop i s = String c (drop (S i) s).
Proof.
  induction s as [|d s IH]; intros i c H; simpl in H; [discriminate|].
  destruct i as [|i].
  - injection H as ->. reflexivity.
  - simpl. rewrite (IH _ _ H). reflexivity.
Qed.

Lemma drop_all (s : string) : forall i, len s <= i -> drop i s = EmptyString.
Proof.
  unfold len. induction s as [|d s IH]; intros i H; destruct i as [|i];
    simpl in *; try reflexivity; try lia.
  apply IH. lia.
Qed.

Lemma drop_nonempty (s : string) : forall i, i < len s -> drop i s <> EmptyString.
Proof.
  intros i H. destruct (get_lt s i H) as [c Hc].
  rewrite (drop_get _ _ _ Hc). discriminate.
Qed.

Lemma sync_true_iff (a : string) : forall b,
  sync a b = true <-> a = b /\ all_chars isalpha a = true.
Proof.
  induction a as [|x a IH]; intros [|y b]; simpl.
  - tauto.
  - split; [discriminate|]. intros [H _]; discriminate.
  - split; [discriminate|]. intros [H _]; discriminate.
  - rewrite !andb_true_iff, IH, Ascii.eqb_eq. split.
    + intros [[[Hx _] ->] [-> Ha]]. auto.
    + intros [H [Hx Ha]]. injection H as -> ->. auto.
Qed.

Lemma sync_sym (a : string) : forall b, sync a b = sync b a.
Proof.
  induction a as [|x a IH]; intros [|y b]; simpl; try reflexivity.
  rewrite IH, (Ascii.eqb_sym x y).
  destruct (isalpha x), (isalpha y); reflexivity.
Qed.

(* ================================================================== *)
(** ** The search from a synchronized state *)
(* ================================================================== *)

Section SearchFacts.

Variables s1 s2 : string.

Lemma dfs_sync : forall fuel i j,
  i <= len s1 -> j <= len s2 -> remaining s1 s2 i j < fuel ->
  result (dfs s1 s2 fuel i j 0) = Ret (sync (drop i s1) (drop j s2))
  /\ Forall sync_call (trace (dfs s1 s2 fuel i j 0)).
Proof.
  induction fuel as [|fuel IH]; intros i j Hi Hj Hf; [lia|].
  cbn [dfs]. rewrite result_tell_bind, trace_tell_bind.
  assert (Hall : forall m : M bool, Forall sync_call (trace m) ->
                 Forall sync_call (EvDfs i j 0 :: trace m)).
  { intros m Hm. constructor; [reflexivity | exact Hm]. }
  unfold dfs_body.
  destruct (Nat.eqb_spec i (len s1)) as [Ei|Ei];
    destruct (Nat.eqb_spec j (len s2)) as [Ej|Ej]; cbn [andb Z.eqb].
  - rewrite !drop_all by lia. split; [reflexivity | apply Hall; constructor].
  - replace (i <? len s1) with false by (symmetry; apply Nat.ltb_ge; lia).
    cbn [andb]. rewrite bind_ret_l.
    rewrite (drop_all s1) by lia.
    destruct (drop j s2) eqn:Ed; [exfalso; revert Ed; apply drop_nonempty; lia|].
    split; [reflexivity | apply Hall; constructor].
  - replace (i <? len s1) with true by (symmetry; apply Nat.ltb_lt; lia).
    replace (j <? len s2) with false by (symmetry; apply Nat.ltb_ge; lia).
    cbn [andb]. rewrite bind_ret_l.
    rewrite (drop_all s2) by lia.
    destruct (drop i s1) eqn:Ed; [exfalso; revert Ed; apply drop_nonempty; lia|].
    split; [reflexivity | apply Hall; constructor].
  - replace (i <? len s1) with true by (symmetry; apply Nat.ltb_lt; lia).
    replace (j <? len s2) with true by (symmetry; apply Nat.ltb_lt; lia).
    cbn [andb].
    destruct (get_lt s1 i) as [a Ha]; [lia|].
    destruct (get_lt s2 j) as [b Hb]; [lia|].
    unfold getitem. rewrite Ha, Hb, (drop_get _ _ _ Ha), (drop_get _ _ _ Hb).
    cbn [sync]. rewrite !bind_ret_l.
    destruct (isalpha a); cbn [andb]; rewrite ?bind_ret_l;
      [|split; [reflexivity | apply Hall; constructor]].
    destruct (isalpha b); cbn [andb]; rewrite ?bind_ret_l;
      [|split; [reflexivity | apply Hall; constructor]].
    destruct (Ascii.eqb a b); cbn [negb andb];
      [|split; [reflexivity | apply Hall; constructor]].
    replace (i + 1) with (S i) by lia. replace (j + 1) with (S j) by lia.
    destruct (IH (S i) (S j)) as [Hr Ht]; try lia.
    { unfold remaining in *. lia. }
    split; [exact Hr | apply Hall; exact Ht].
Qed.

End SearchFacts.

(** From the first call the search is synchronized throughout: the result
    is [sync] of the two whole strings. *)
Lemma possiblyEquals_sync (s1 s2 : string) :
  result (possiblyEquals s1 s2) = Ret (sync s1 s2)
  /\ Forall sync_call (trace (possiblyEquals s1 s2)).
Proof.
  unfold possiblyEquals.
  apply (dfs_sync s1 s2 (S (len s1 + len s2)) 0 0); unfold remaining; lia.
Qed.

(* ================================================================== *)
(** ** Well-formed input *)
(* ================================================================== *)

Lemma isalpha_well_formed (c : ascii) :
  well_formed_char c = true -> isalpha c = lowercase c.
Proof.
  destruct c as [[] [] [] [] [] [] [] []]; vm_compute; congruence.
Qed.

Lemma decimal_well_formed (c : ascii) :
  well_formed_char c = true -> decimal c = negb (lowercase c).
Proof.
  destruct c as [[] [] [] [] [] [] [] []]; vm_compute; congruence.
Qed.

Lemma lowercase_well_formed (c : ascii) :
  lowercase c = true -> well_formed_char c = true.
Proof. unfold well_formed_char. intros ->. reflexivity. Qed.

Lemma all_alpha_well_formed (s : string) :
  well_formed s = true -> all_chars isalpha s = letters_only s.
Proof.
  unfold well_formed, letters_only.
  induction s as [|c s IH]; simpl; [reflexivity|].
  rewrite andb_true_iff. intros [Hc Hs].
  rewrite (isalpha_well_formed c Hc), (IH Hs). reflexivity.
Qed.

Lemma has_digit_well_formed (s : string) :
  well_formed s = true -> has_digit s = negb (letters_only s).
Proof.
  unfold well_formed, letters_only.
  induction s as [|c s IH]; simpl; [reflexivity|].
  rewrite andb_true_iff. intros [Hc Hs].
  rewrite (decimal_well_formed c Hc), (IH Hs), negb_andb. reflexivity.
Qed.

Lemma letters_only_well_formed (s : string) :
  letters_only s = true -> well_formed s = true.
Proof.
  unfold well_formed, letters_only.
  induction s as [|c s IH]; simpl; [reflexivity|].
  rewrite !andb_true_iff. intros [Hc Hs].
  split; [apply lowercase_well_formed; exact Hc | apply IH; exact Hs].
Qed.

(** On well-formed input the result is [True] exactly for two equal strings
    of letters. *)
Lemma sync_well_formed (s1 s2 : string) :
  well_formed s1 = true ->
  (sync s1 s2 = true <-> s1 = s2 /\ letters_only s1 = true).
Proof.
  intros H1. rewrite sync_true_iff, (all_alpha_well_formed s1 H1). tauto.
Qed.

(* ================================================================== *)
(** ** The entry point *)
(* ================================================================== *)

(** C1.  For well-formed [s1] and [s2], [possiblyEquals(s1, s2)] returns a
    boolean that is [True] if and only if [s1 == s2] and every character of
    [s1] is a lowercase letter (two empty strings included); two identical
    strings that contain a digit give [False]. *)
Theorem possiblyEquals_true_iff (s1 s2 : string) :
  well_formed s1 = true -> well_formed s2 = true ->
  (exists b : bool,
      result (possiblyEquals s1 s2) = Ret b
      /\ (b = true <-> s1 = s2 /\ letters_only s1 = true))
  /\ (s1 = s2 -> has_digit s1 = true ->
      result (possiblyEquals s1 s2) = Ret false).
Proof.
  intros H1 H2. destruct (possiblyEquals_sync s1 s2) as [Hr _]. split.
  - exists (sync s1 s2). split; [exact Hr | apply sync_well_formed; exact H1].
  - intros E Hd. rewrite Hr. f_equal.
    rewrite (has_digit_well_formed s1 H1) in Hd.
    destruct (sync s1 s2) eqn:Es; [|reflexivity].
    apply (sync_well_formed s1 s2 H1) in Es. destruct Es as [_ Hl].
    rewrite Hl in Hd. discriminate.
Qed.

Lemma possiblyEquals_true_iff_witness :
  well_formed "a1" = true /\ well_formed "a1" = true
  /\ (exists b : bool,
         result (possiblyEquals "a1" "a1") = Ret b
         /\ (b = true <-> "a1" = "a1" /\ letters_only "a1" = true))
  /\ ("a1" = "a1" -> has_digit "a1" = true ->
      result (possiblyEquals "a1" "a1") = Ret false).
Proof.
  split; [reflexivity|]. split; [reflexivity|].
  apply (possiblyEquals_true_iff "a1" "a1"); reflexivity.
Defined.

(** C2, as the code has it.  [equivalent(s, s)] is [True] for every
    well-formed [s] without a digit, and [False] for every well-formed [s]
    with one. *)
Theorem equivalent_refl_letters (s : string) :
  well_formed s = true ->
  (has_digit s = false -> result (equivalent s s) = Ret true)
  /\ (has_digit s = true -> result (equivalent s s) = Ret false).
Proof.
  intros Hw. unfold equivalent.
  destruct (possiblyEquals_sync s s) as [Hr _]. rewrite Hr.
  rewrite (has_digit_well_formed s Hw). split; intros Hd; f_equal.
  - apply (sync_well_formed s s Hw). split; [reflexivity|].
    destruct (letters_only s); [reflexivity | discriminate].
  - destruct (sync s s) eqn:Es; [|reflexivity].
    apply (sync_well_formed s s Hw) in Es. destruct Es as [_ Hl].
    rewrite Hl in Hd. discriminate.
Qed.

Lemma equivalent_refl_letters_witness :
  well_formed "abc" = true
  /\ (has_digit "abc" = false -> result (equivalent "abc" "abc") = Ret true)
  /\ (has_digit "abc" = true -> result (equivalent "abc" "abc") = Ret false).
Proof.
  split; [reflexivity|]. apply (equivalent_refl_letters "abc"). reflexivity.
Defined.

(** C2 fails as stated: ["1"] is well-formed and [equivalent("1", "1")] is
    [False]. *)
Lemma equivalent_refl_fails :
  well_formed "1" = true
  /\ result (equivalent "1" "1") = Ret false
  /\ result (equivalent "1" "1") <> Ret true.
Proof.
  split; [reflexivity|]. split; [reflexivity|]. vm_compute. discriminate.
Qed.

(** C3, as the code has it.  [equivalent("a5", "a00005")] and
    [equivalent("a5", "a6")] are both [False]: after the matching ['a'] the
    search meets a digit with imbalance 0 and gives up. *)
Theorem equivalent_a5_examples :
  equivalent "a5" "a00005" = ([EvDfs 0 0 0; EvDfs 1 1 0], Ret false)
  /\ equivalent "a5" "a6" = ([EvDfs 0 0 0; EvDfs 1 1 0], Ret false).
Proof. split; reflexivity. Qed.

(** C3 fails as stated: [equivalent("a5", "a00005")] is not [True]. *)
Lemma equivalent_a5_a00005_fails :
  result (equivalent "a5" "a00005") = Ret false
  /\ result (equivalent "a5" "a00005") <> Ret true.
Proof. split; [reflexivity|]. vm_compute. discriminate. Qed.

(** C7.  Whatever the two strings, the calls made by [possiblyEquals]
    start with [dfs(0, 0, 0)] and every one of them is an entry into [dfs]
    with [diff = 0]: no call has [diff > 0] or [diff < 0], and [get_options]
    is never called. *)
Theorem dfs_diff_always_zero (s1 s2 : string) :
  Forall (fun ev => exists i j : nat, ev = EvDfs i j 0%Z)
         (trace (possiblyEquals s1 s2))
  /\ exists t, trace (possiblyEquals s1 s2) = EvDfs 0 0 0 :: t.
Proof.
  split.
  - destruct (possiblyEquals_sync s1 s2) as [_ Ht].
    induction Ht as [|ev t Hev _ IH]; constructor; [|exact IH].
    destruct ev as [i j diff|seg]; simpl in Hev; [|contradiction].
    subst diff. eauto.
  - unfold possiblyEquals. cbn [dfs]. rewrite trace_tell_bind. eauto.
Qed.

(** C8.  For two strings of lowercase letters (possibly empty),
    [equivalent(s1, s2)] returns a boolean that is [True] if and only if
    [s1 == s2]. *)
Theorem equivalent_letters_iff_eq (s1 s2 : string) :
  letters_only s1 = true -> letters_only s2 = true ->
  exists b : bool,
    result (equivalent s1 s2) = Ret b /\ (b = true <-> s1 = s2).
Proof.
  intros H1 H2. exists (sync s1 s2). unfold equivalent.
  split; [apply possiblyEquals_sync|].
  rewrite (sync_well_formed s1 s2 (letters_only_well_formed s1 H1)). tauto.
Qed.

Lemma equivalent_letters_iff_eq_witness :
  letters_only "abc" = true /\ letters_only "abd" = true
  /\ exists b : bool,
       result (equivalent "abc" "abd") = Ret b /\ (b = true <-> "abc" = "abd").
Proof.
  split; [reflexivity|]. split; [reflexivity|].
  apply (equivalent_letters_iff_eq "abc" "abd"); reflexivity.
Defined.

(** C9.  For well-formed [s1] and [s2], [equivalent(s1, s2)] and
    [equivalent(s2, s1)] return the same result. *)
Theorem equivalent_sym (s1 s2 : string) :
  well_formed s1 = true -> well_formed s2 = true ->
  result (equivalent s1 s2) = result (equivalent s2 s1).
Proof.
  intros _ _. unfold equivalent.
  destruct (possiblyEquals_sync s1 s2) as [-> _].
  destruct (possiblyEquals_sync s2 s1) as [-> _].
  rewrite sync_sym. reflexivity.
Qed.

Lemma equivalent_sym_witness :
  well_formed "ab1" = true /\ well_formed "ab" = true
  /\ result (equivalent "ab1" "ab") = result (equivalent "ab" "ab1").
Proof.
  split; [reflexivity|]. split; [reflexivity|].
  apply (equivalent_sym "ab1" "ab"); reflexivity.
Defined.

(* ================================================================== *)
(** ** Digits met at imbalance 0 *)
(* ================================================================== *)

Lemma isdigit_not_alpha (c : ascii) : isdigit c = true -> isalpha c = false.
Proof.
  destruct c as [[] [] [] [] [] [] [] []]; vm_compute; congruence.
Qed.

(** C4, as the code has it.  With imbalance 0 and a digit under each of the
    two cursors, [dfs] returns [False] at once: neither run is consumed, and
    neither [get_options] nor [dfs] is called.  In particular
    [equivalent("1", "01")] is [False] after the single call
    [dfs(0, 0, 0)]. *)
Theorem dfs_sync_digits_false (s1 s2 : string)
  (rec : nat -> nat -> Z -> M bool) (i j : nat) :
  at_digit s1 i = true -> at_digit s2 j = true ->
  dfs_body s1 s2 rec i j 0 = ([], Ret false)
  /\ equivalent "1" "01" = ([EvDfs 0 0 0], Ret false).
Proof.
  unfold at_digit. intros H1 H2. split; [|reflexivity].
  destruct (String.get i s1) as [a|] eqn:Ha; [|discriminate].
  destruct (String.get j s2) as [b|] eqn:Hb; [|discriminate].
  pose proof (get_some_lt _ _ _ Ha) as Hi.
  pose proof (get_some_lt _ _ _ Hb) as Hj.
  unfold dfs_body, getitem.
  replace (i =? len s1) with false by (symmetry; apply Nat.eqb_neq; lia).
  replace (i <? len s1) with true by (symmetry; apply Nat.ltb_lt; lia).
  replace (j <? len s2) with true by (symmetry; apply Nat.ltb_lt; lia).
  cbn [andb Z.eqb]. rewrite Ha, bind_ret_l, (isdigit_not_alpha a H1).
  reflexivity.
Qed.

Lemma dfs_sync_digits_false_witness :
  at_digit "1" 0 = true /\ at_digit "01" 0 = true
  /\ dfs_body "1" "01" (dfs "1" "01" 3) 0 0 0 = ([], Ret false)
  /\ equivalent "1" "01" = ([EvDfs 0 0 0], Ret false).
Proof.
  split; [reflexivity|]. split; [reflexivity|].
  apply (dfs_sync_digits_false "1" "01" (dfs "1" "01" 3) 0 0); reflexivity.
Defined.

(** C4 fails as stated: [equivalent("1", "01")] is not [True]. *)
Lemma equivalent_1_01_fails :
  result (equivalent "1" "01") = Ret false
  /\ result (equivalent "1" "01") <> Ret true.
Proof. split; [reflexivity|]. vm_compute. discriminate. Qed.

(* ================================================================== *)
(** ** The segment value enumerator *)
(* ================================================================== *)

Lemma substring_zero_length (s : string) : forall a, substring a 0 s = EmptyString.
Proof.
  induction s as [|c s IH]; intros [|a]; simpl; try reflexivity. apply IH.
Qed.

Lemma py_int_no_trace (s : string) :
  py_int s = raise ValueError \/ exists v, py_int s = ret v.
Proof.
  unfold py_int. destruct s as [|c s]; [left; reflexivity|].
  destruct (int_digits 0 (String c s)); [right; eauto | left; reflexivity].
Qed.

(** The innermost loop of [get_options] when [i] and [j] are both below
    [n]: nothing happens until [k] reaches [n], where the three-part sum is
    attempted. *)
Lemma for_k_reaches_n (segment : string) (n i j : nat) (res : list Z) :
  i <> n -> j <> n ->
  forall m a, a <= n < a + m ->
  for_acc (seq a m) (fun k res =>
      if i =? n then
        v <- py_int segment ;;
        ret (true, res ++ [v])
      else if j =? n then
        a <- py_int (slice segment 0 i) ;;
        b <- py_int (slice segment i n) ;;
        ret (true, res ++ [(a + b)%Z])
      else if k =? n then
        a <- py_int (slice segment 0 i) ;;
        b <- py_int (slice segment i j) ;;
        c <- py_int (slice segment j n) ;;
        ret (true, res ++ [(a + b + c)%Z])
      else ret (false, res)) res
  = (a <- py_int (slice segment 0 i) ;;
     b <- py_int (slice segment i j) ;;
     c <- py_int (slice segment j n) ;;
     ret (res ++ [(a + b + c)%Z])).
Proof.
  intros Hi Hj.
  replace (i =? n) with false by (symmetry; apply Nat.eqb_neq; exact Hi).
  replace (j =? n) with false by (symmetry; apply Nat.eqb_neq; exact Hj).
  induction m as [|m IH]; intros a Ha; [lia|].
  cbn [seq for_acc].
  destruct (Nat.eqb_spec a n) as [E|E].
  - destruct (py_int_no_trace (slice segment 0 i)) as [->|[x ->]];
      [reflexivity|].
    rewrite !bind_ret_l.
    destruct (py_int_no_trace (slice segment i j)) as [->|[y ->]];
      [reflexivity|].
    rewrite !bind_ret_l.
    destruct (py_int_no_trace (slice segment j n)) as [->|[z ->]];
      [reflexivity|].
    rewrite !bind_ret_l. reflexivity.
  - rewrite bind_ret_l. cbn [fst snd]. apply IH. lia.
Qed.

(** C5, where the code departs from it.  On a segment of two characters or
    more [get_options] returns no set of sums: the first sum it attempts is
    the one at [i = 1], [j = 1], [k = n], whose middle part [segment[1:1]]
    is empty, and [int] of the empty string raises ValueError before
    anything is appended to [res]. *)
Theorem get_options_raises (segment : string) :
  2 <= len segment ->
  get_options segment = ([EvGetOptions segment], Raise ValueError).
Proof.
  intros Hn. unfold get_options.
  replace (len segment =? 0) with false by (symmetry; apply Nat.eqb_neq; lia).
  set (n := len segment) in *.
  unfold range.
  replace (n + 1 - 1) with (S (n - 1)) by lia.
  cbn [seq for_acc].
  replace (n + 1 - 1) with (S (n - 1)) by lia.
  cbn [seq for_acc].
  rewrite for_k_reaches_n by lia.
  unfold slice at 2. rewrite Nat.sub_diag, substring_zero_length.
  destruct (py_int_no_trace (slice segment 0 1)) as [->|[x ->]];
    reflexivity.
Qed.

Lemma get_options_raises_witness :
  2 <= len "12"
  /\ get_options "12" = ([EvGetOptions "12"], Raise ValueError).
Proof.
  split; [vm_compute; lia|]. apply (get_options_raises "12"). vm_compute. lia.
Defined.

(** On a single decimal digit [get_options] returns the one value of the
    digit. *)
Lemma get_options_single (c : ascii) :
  decimal c = true ->
  exists v, digit_value c = Some v
            /\ get_options (String c EmptyString)
               = ([EvGetOptions (String c EmptyString)], Ret [v]).
Proof.
  destruct c as [[] [] [] [] [] [] [] []]; vm_compute; try congruence;
    intros _; eexists; split; reflexivity.
Qed.

(* ================================================================== *)
(** ** Termination of the search *)
(* ================================================================== *)

Lemma bind_ext {A B} (m : M A) (f g : A -> M B) :
  (forall a, f a = g a) -> bind m f = bind m g.
Proof.
  intros H. destruct m as [t [a|e|]]; simpl; [rewrite H|..]; reflexivity.
Qed.

Lemma for_any_ext {A} (l : list A) (f g : A -> M bool) :
  (forall x, In x l -> f x = g x) -> for_any l f = for_any l g.
Proof.
  induction l as [|x l IH]; intros H; [reflexivity|].
  cbn [for_any]. rewrite (H x (or_introl eq_refl)).
  apply bind_ext. intros [|]; [reflexivity|].
  apply IH. intros y Hy. apply H. right. exact Hy.
Qed.

Lemma in_range (a b x : nat) : In x (range a b) -> a <= x < b.
Proof. unfold range. rewrite in_seq. lia. Qed.

(** The bound [len s - k] on the iterations of the [while] loop is never
    the reason why it stops: a larger bound gives the same [num_seg]. *)
Lemma while_digit_fuel (s : string) : forall n k num_seg,
  len s - k <= n ->
  while_digit n s k num_seg = while_digit (len s - k) s k num_seg.
Proof.
  induction n as [|n IH]; intros k num_seg Hn.
  - replace (len s - k) with 0 by lia. reflexivity.
  - cbn [while_digit].
    destruct (String.get k s) as [c|] eqn:Hc.
    + pose proof (get_some_lt _ _ _ Hc) as Hk.
      replace (len s - k) with (S (len s - (k + 1))) by lia.
      cbn [while_digit]. rewrite Hc.
      destruct (isdigit c); [|reflexivity].
      destruct (3 <? length (num_seg ++ [c])); [reflexivity|].
      apply IH. lia.
    + destruct (len s - k) as [|m]; [reflexivity|].
      cbn [while_digit]. rewrite Hc. reflexivity.
Qed.

Lemma while_digit_length (s : string) : forall n k num_seg,
  length (while_digit n s k num_seg) <= length num_seg + (len s - k).
Proof.
  induction n as [|n IH]; intros k num_seg; cbn [while_digit]; [lia|].
  destruct (String.get k s) as [c|] eqn:Hc; [|lia].
  apply get_some_lt in Hc.
  destruct (isdigit c); [|lia].
  destruct (3 <? length (num_seg ++ [c])).
  - rewrite length_app. simpl. lia.
  - specialize (IH (k + 1) (num_seg ++ [c])).
    rewrite length_app in IH. simpl in IH. lia.
Qed.

Lemma finished_ret {A} (a : A) : finished (result (ret a)) = true.
Proof. reflexivity. Qed.

Lemma finished_bind {A B} (m : M A) (f : A -> M B) :
  finished (result m) = true ->
  (forall a, finished (result (f a)) = true) ->
  finished (result (bind m f)) = true.
Proof.
  destruct m as [t [a|e|]]; simpl; intros Hm Hf; try assumption.
  specialize (Hf a). destruct (f a) as [t' o]. exact Hf.
Qed.

Lemma finished_py_int (s : string) : finished (result (py_int s)) = true.
Proof.
  destruct (py_int_no_trace s) as [->|[v ->]]; reflexivity.
Qed.

Lemma finished_getitem (s : string) (i : nat) :
  finished (result (getitem s i)) = true.
Proof. unfold getitem. destruct (String.get i s); reflexivity. Qed.

Lemma finished_for_acc {A S} (body : A -> S -> M (bool * S)) :
  (forall x s, finished (result (body x s)) = true) ->
  forall l s, finished (result (for_acc l body s)) = true.
Proof.
  intros Hb. induction l as [|x l IH]; intros s; cbn [for_acc];
    [reflexivity|].
  apply finished_bind; [apply Hb|].
  intros [[|] s']; cbn [fst snd]; [reflexivity | apply IH].
Qed.

Lemma finished_for_any {A} (l : list A) (f : A -> M bool) :
  (forall x, In x l -> finished (result (f x)) = true) ->
  finished (result (for_any l f)) = true.
Proof.
  induction l as [|x l IH]; intros H; cbn [for_any]; [reflexivity|].
  apply finished_bind; [apply H; left; reflexivity|].
  intros [|]; [reflexivity|]. apply IH. intros y Hy. apply H. right. exact Hy.
Qed.

Create HintDb fin.

#[local] Hint Resolve finished_ret finished_py_int finished_getitem : fin.

Ltac fin_step :=
  repeat first
    [ apply finished_bind; [auto with fin | intros ?]
    | progress auto with fin ].

Lemma finished_get_options (segment : string) :
  finished (result (get_options segment)) = true.
Proof.
  unfold get_options. apply finished_bind; [reflexivity | intros _].
  destruct (len segment =? 0); [reflexivity|].
  apply finished_for_acc. intros i res.
  apply finished_bind; [|intros ?; reflexivity].
  apply finished_for_acc. intros j res'.
  apply finished_bind; [|intros ?; reflexivity].
  apply finished_for_acc. intros k res''.
  destruct (i =? len segment); [fin_step|].
  destruct (j =? len segment); [fin_step|].
  destruct (k =? len segment); fin_step.
Qed.

Section Termination.

Variables s1 s2 : string.

Lemma advanced_both (i j : nat) :
  i < len s1 -> j < len s2 -> advanced s1 s2 i j (i + 1) (j + 1).
Proof. unfold advanced, remaining. lia. Qed.

Lemma advanced_right (i j n : nat) :
  1 <= n -> j + n <= len s2 -> advanced s1 s2 i j i (j + n).
Proof. unfold advanced, remaining. lia. Qed.

Lemma advanced_left (i j n : nat) :
  1 <= n -> i + n <= len s1 -> advanced s1 s2 i j (i + n) j.
Proof. unfold advanced, remaining. lia. Qed.

(** The prefix lengths tried on a digit run stay inside the string. *)
Lemma seg_len_bounds (s : string) (k seg_len : nat) :
  k < len s ->
  In seg_len (range 1 (length (while_digit (len s - k) s k []) + 1)) ->
  1 <= seg_len /\ k + seg_len <= len s.
Proof.
  intros Hk Hin. apply in_range in Hin.
  pose proof (while_digit_length s (len s - k) k []) as Hl.
  simpl in Hl. lia.
Qed.

(** Every recursive call in the body of [dfs] is made at an advanced
    state: the body does not depend on what [dfs] does elsewhere. *)
Lemma dfs_body_advances (rec rec' : nat -> nat -> Z -> M bool)
  (i j : nat) (diff : Z) :
  (forall i' j' diff', advanced s1 s2 i j i' j' ->
                       rec i' j' diff' = rec' i' j' diff') ->
  dfs_body s1 s2 rec i j diff = dfs_body s1 s2 rec' i j diff.
Proof.
  intros H. unfold dfs_body.
  destruct ((i =? len s1) && (j =? len s2)); [reflexivity|].
  destruct (diff =? 0)%Z.
  { destruct (Nat.ltb_spec i (len s1)) as [Hi|Hi];
      destruct (Nat.ltb_spec j (len s2)) as [Hj|Hj]; cbn [andb];
        try reflexivity.
    rewrite (H (i + 1) (j + 1) 0%Z (advanced_both i j Hi Hj)).
    reflexivity. }
  destruct (diff >? 0)%Z.
  - destruct (Nat.leb_spec (len s2) j) as [Hj|Hj]; [reflexivity|].
    apply bind_ext. intros b. destruct (isalpha b).
    + apply H. apply advanced_right; lia.
    + apply for_any_ext. intros seg_len Hin.
      apply seg_len_bounds in Hin; [|exact Hj].
      apply bind_ext. intros vals. apply for_any_ext. intros val _.
      apply H. apply advanced_right; lia.
  - destruct (Nat.leb_spec (len s1) i) as [Hi|Hi]; [reflexivity|].
    apply bind_ext. intros a. destruct (isalpha a).
    + apply H. apply advanced_left; lia.
    + apply for_any_ext. intros seg_len Hin.
      apply seg_len_bounds in Hin; [|exact Hi].
      apply bind_ext. intros vals. apply for_any_ext. intros val _.
      apply H. apply advanced_left; lia.
Qed.

(** The body of [dfs] ends when its recursive calls end. *)
Lemma dfs_body_finished (rec : nat -> nat -> Z -> M bool)
  (i j : nat) (diff : Z) :
  (forall i' j' diff', advanced s1 s2 i j i' j' ->
                       finished (result (rec i' j' diff')) = true) ->
  finished (result (dfs_body s1 s2 rec i j diff)) = true.
Proof.
  intros H. unfold dfs_body.
  destruct ((i =? len s1) && (j =? len s2)); [reflexivity|].
  destruct (diff =? 0)%Z.
  { destruct (Nat.ltb_spec i (len s1)) as [Hi|Hi];
      destruct (Nat.ltb_spec j (len s2)) as [Hj|Hj]; cbn [andb];
        try (rewrite bind_ret_l; reflexivity).
    apply finished_bind.
    - apply finished_bind; [auto with fin | intros a].
      destruct (isalpha a); fin_step.
    - intros [|]; [|reflexivity].
      apply finished_bind; [auto with fin | intros a].
      apply finished_bind; [auto with fin | intros b].
      destruct (negb (Ascii.eqb a b)); [reflexivity|].
      apply H. apply advanced_both; assumption. }
  destruct (diff >? 0)%Z.
  - destruct (Nat.leb_spec (len s2) j) as [Hj|Hj]; [reflexivity|].
    apply finished_bind; [auto with fin | intros b]. destruct (isalpha b).
    + apply H. apply advanced_right; lia.
    + apply finished_for_any. intros seg_len Hin.
      apply seg_len_bounds in Hin; [|exact Hj].
      apply finished_bind; [apply finished_get_options | intros vals].
      apply finished_for_any. intros val _.
      apply H. apply advanced_right; lia.
  - destruct (Nat.leb_spec (len s1) i) as [Hi|Hi]; [reflexivity|].
    apply finished_bind; [auto with fin | intros a]. destruct (isalpha a).
    + apply H. apply advanced_left; lia.
    + apply finished_for_any. intros seg_len Hin.
      apply seg_len_bounds in Hin; [|exact Hi].
      apply finished_bind; [apply finished_get_options | intros vals].
      apply finished_for_any. intros val _.
      apply H. apply advanced_left; lia.
Qed.

(** Fuel above the number of characters left is never exhausted. *)
Lemma dfs_finished : forall fuel i j diff,
  remaining s1 s2 i j < fuel ->
  finished (result (dfs s1 s2 fuel i j diff)) = true.
Proof.
  induction fuel as [|fuel IH]; intros i j diff Hf; [lia|].
  cbn [dfs]. rewrite result_tell_bind.
  apply dfs_body_finished. intros i' j' diff' (_ & _ & _ & Hr).
  apply IH. lia.
Qed.

(** Any two such amounts of fuel give the same run. *)
Lemma dfs_fuel_irrelevant : forall fuel fuel' i j diff,
  remaining s1 s2 i j < fuel -> remaining s1 s2 i j < fuel' ->
  dfs s1 s2 fuel i j diff = dfs s1 s2 fuel' i j diff.
Proof.
  induction fuel as [|fuel IH]; intros fuel' i j diff Hf Hf'; [lia|].
  destruct fuel' as [|fuel']; [lia|].
  cbn [dfs]. apply bind_ext. intros _.
  apply dfs_body_advances. intros i' j' diff' (_ & _ & _ & Hr).
  apply IH; lia.
Qed.

End Termination.

(** C10.  The search terminates on every pair of strings.  Every recursive
    call made by the body of [dfs(i, j, _)] is made at a state where no
    cursor has moved back and at least one has moved forward by at least one
    character (the body is unchanged by what [dfs] does at any other
    state); hence a call with more fuel than characters left to read ends
    without exhausting it, and the nested calls below [dfs(0, 0, 0)] never
    exceed [len(s1) + len(s2)]. *)
Theorem dfs_terminates (s1 s2 : string) :
  (forall (rec rec' : nat -> nat -> Z -> M bool) (i j : nat) (diff : Z),
      (forall i' j' diff',
          i <= i' /\ j <= j' /\ i + j < i' + j'
          /\ remaining s1 s2 i' j' < remaining s1 s2 i j ->
          rec i' j' diff' = rec' i' j' diff') ->
      dfs_body s1 s2 rec i j diff = dfs_body s1 s2 rec' i j diff)
  /\ (forall fuel i j diff,
         remaining s1 s2 i j < fuel ->
         finished (result (dfs s1 s2 fuel i j diff)) = true
         /\ dfs s1 s2 fuel i j diff
            = dfs s1 s2 (S (remaining s1 s2 i j)) i j diff)
  /\ finished (result (dfs s1 s2 (S (len s1 + len s2)) 0 0 0)) = true.
Proof.
  split; [|split].
  - intros rec rec' i j diff H. apply dfs_body_advances. exact H.
  - intros fuel i j diff Hf. split.
    + apply dfs_finished. exact Hf.
    + apply dfs_fuel_irrelevant; [exact Hf | lia].
  - apply dfs_finished. unfold remaining. lia.
Qed.

Lemma dfs_terminates_witness :
  dfs_body "a" "12" (fun i' j' _ => ret (0 <? i' + j')) 0 0 1
  = dfs_body "a" "12" (fun _ _ _ => ret true) 0 0 1
  /\ remaining "a" "12" 0 0 < 4
  /\ finished (result (dfs "a" "12" 4 0 0 1)) = true
  /\ dfs "a" "12" 4 0 0 1 = dfs "a" "12" (S (remaining "a" "12" 0 0)) 0 0 1.
Proof.
  destruct (dfs_terminates "a" "12") as [Hstep [Hfuel _]].
  split; [|split].
  - apply Hstep. intros i' j' diff' (_ & _ & Hlt & _).
    replace (0 <? i' + j') with true by (symmetry; apply Nat.ltb_lt; lia).
    reflexivity.
  - vm_compute. lia.
  - apply Hfuel. vm_compute. lia.
Defined.

(* ================================================================== *)
(** ** The segment value enumerator, completely *)
(* ================================================================== *)

Lemma get_options_long (c c' : ascii) (rest : string) :
  get_options (String c (String c' rest))
  = ([EvGetOptions (String c (String c' rest))], Raise ValueError).
Proof.
  set (segment := String c (String c' rest)).
  assert (Hn : 2 <= len segment) by (unfold segment, len; simpl; lia).
  unfold get_options.
  replace (len segment =? 0) with false by (symmetry; apply Nat.eqb_neq; lia).
  set (n := len segment) in *.
  unfold range.
  replace (n + 1 - 1) with (S (n - 1)) by lia.
  cbn [seq for_acc].
  replace (n + 1 - 1) with (S (n - 1)) by lia.
  cbn [seq for_acc].
  rewrite for_k_reaches_n by lia.
  unfold slice at 2. rewrite Nat.sub_diag, substring_zero_length.
  destruct (py_int_no_trace (slice segment 0 1)) as [->|[x ->]];
    reflexivity.
Qed.

Lemma get_options_one (c : ascii) :
  get_options (String c EmptyString)
  = ([EvGetOptions (String c EmptyString)],
     match digit_value c with
     | Some v => Ret [v]
     | None => Raise ValueError
     end).
Proof.
  destruct c as [[] [] [] [] [] [] [] []]; vm_compute; reflexivity.
Qed.

Lemma digit_value_range (c : ascii) (v : Z) :
  digit_value c = Some v -> (0 <= v <= 9)%Z.
Proof.
  unfold digit_value, between. 
  destruct ((48 <=? code c) && (code c <=? 57)) eqn:E; [|discriminate].
  apply andb_true_iff in E. destruct E as [E1 E2].
  apply Nat.leb_le in E1, E2. intros H. injection H as <-. lia.
Qed.

(** X1.  What [get_options] does on every segment: it records its call;
    on the empty segment it returns [[0]]; on one decimal digit it returns
    the one value of the digit; on any other segment (one character that is
    no decimal digit, or two characters or more) it raises ValueError. *)
Theorem get_options_total (segment : string) :
  get_options segment
  = ([EvGetOptions segment],
     match segment with
     | EmptyString => Ret [0%Z]
     | String c EmptyString =>
         match digit_value c with
         | Some v => Ret [v]
         | None => Raise ValueError
         end
     | String _ (String _ _) => Raise ValueError
     end).
Proof.
  destruct segment as [|c [|c' rest]].
  - reflexivity.
  - apply get_options_one.
  - apply get_options_long.
Qed.

(** X2.  Whenever [get_options] returns, the list it returns has exactly
    one element, a number from 0 to 9: no segment gets more than one
    interpretation. *)
Theorem get_options_singleton (segment : string) (vals : list Z) :
  result (get_options segment) = Ret vals ->
  exists v, vals = [v] /\ (0 <= v <= 9)%Z.
Proof.
  destruct segment as [|c [|c' rest]].
  - intros H. injection H as <-. exists 0%Z. split; [reflexivity | lia].
  - rewrite get_options_one. cbn [result snd].
    destruct (digit_value c) as [v|] eqn:E; [|discriminate].
    intros H. injection H as <-. exists v.
    split; [reflexivity | apply (digit_value_range c); exact E].
  - rewrite get_options_long. discriminate.
Qed.

Lemma get_options_singleton_witness :
  result (get_options "7") = Ret [7%Z]
  /\ exists v, [7%Z] = [v] /\ (0 <= v <= 9)%Z.
Proof.
  split; [reflexivity|].
  apply (get_options_singleton "7" [7%Z]). reflexivity.
Defined.

(* ================================================================== *)
(** ** The window of digits read by the [while] loop *)
(* ================================================================== *)

Lemma get_none (s : string) : forall i, len s <= i -> String.get i s = None.
Proof.
  intros i H. destruct (String.get i s) as [c|] eqn:E; [|reflexivity].
  apply get_some_lt in E. lia.
Qed.

Lemma substring_get (s : string) : forall k m c,
  String.get k s = Some c ->
  substring k (S m) s = String c (substring (S k) m s).
Proof.
  induction s as [|d s IH]; intros k m c H; simpl in H; [discriminate|].
  destruct k as [|k].
  - injection H as ->. simpl. destruct s, m; reflexivity.
  - simpl. apply IH. exact H.
Qed.

Lemma while_digit_spec (s : string) : forall n k num_seg,
  length num_seg <= 3 ->
  exists tail,
    while_digit n s k num_seg = num_seg ++ tail
    /\ length (num_seg ++ tail) <= 4
    /\ forallb isdigit tail = true
    /\ string_of_list_ascii tail = substring k (length tail) s
    /\ (len s - k <= n -> length (num_seg ++ tail) < 4 ->
        at_digit s (k + length tail) = false).
Proof.
  assert (Hstop : forall k num_seg, length num_seg <= 3 ->
            at_digit s k = false ->
            exists tail : list ascii,
              num_seg = num_seg ++ tail
              /\ length (num_seg ++ tail) <= 4
              /\ forallb isdigit tail = true
              /\ string_of_list_ascii tail = substring k (length tail) s
              /\ (length (num_seg ++ tail) < 4 ->
                  at_digit s (k + length tail) = false)).
  { intros k num_seg Hacc Hk. exists []. rewrite app_nil_r. simpl.
    rewrite substring_zero_length, Nat.add_0_r.
    split; [reflexivity|]. split; [lia|]. split; [reflexivity|].
    split; [reflexivity|]. intros _. exact Hk. }
  induction n as [|n IH]; intros k num_seg Hacc; cbn [while_digit].
  - exists []. rewrite app_nil_r. simpl.
    rewrite substring_zero_length, Nat.add_0_r.
    split; [reflexivity|]. split; [lia|]. split; [reflexivity|].
    split; [reflexivity|]. intros Hn _.
    unfold at_digit. rewrite get_none; [reflexivity | lia].
  - destruct (String.get k s) as [c|] eqn:Hc.
    + destruct (isdigit c) eqn:Hd.
      * destruct (Nat.ltb_spec 3 (length (num_seg ++ [c]))) as [Hl|Hl].
        -- exists [c]. rewrite length_app in *.
           cbn [forallb string_of_list_ascii length] in *. rewrite Hd.
           rewrite (substring_get s k 0 c Hc), substring_zero_length.
           split; [reflexivity|]. split; [lia|]. split; [reflexivity|].
           split; [reflexivity|]. intros _ Hlt. lia.
        -- destruct (IH (k + 1) (num_seg ++ [c]) Hl)
             as (tail & Hr & Hlen & Hdig & Hsub & Hmax).
           exists (c :: tail). rewrite <- app_assoc in Hr, Hlen, Hmax.
           simpl in Hr, Hlen, Hmax.
           cbn [forallb string_of_list_ascii length]. rewrite Hd, Hdig, Hsub.
           rewrite (substring_get s k (length tail) c Hc).
           replace (k + 1) with (S k) in * by lia.
           split; [exact Hr|]. split; [exact Hlen|]. split; [reflexivity|].
           split; [reflexivity|].
           intros Hn Hlt. replace (k + S (length tail))
             with (S k + length tail) by lia.
           apply Hmax; [lia | exact Hlt].
      * destruct (Hstop k num_seg Hacc) as (tail & H1 & H2 & H3 & H4 & H5).
        { unfold at_digit. rewrite Hc. exact Hd. }
        exists tail. auto.
    + destruct (Hstop k num_seg Hacc) as (tail & H1 & H2 & H3 & H4 & H5).
      { unfold at_digit. rewrite Hc. reflexivity. }
      exists tail. auto.
Qed.

(** X3.  The digits collected at cursor [k] are the characters of the
    string from [k] on, all satisfy [isdigit], and there are at most four of
    them: the loop leaves after the append that makes the list longer than
    three. *)
Theorem while_digit_window (s : string) (k : nat) :
  let num_seg := while_digit (len s - k) s k [] in
  length num_seg <= 4
  /\ forallb isdigit num_seg = true
  /\ string_of_list_ascii num_seg = substring k (length num_seg) s.
Proof.
  destruct (while_digit_spec s (len s - k) k []) as (tail & Hr & Hl & Hd & Hs & _);
    [simpl; lia|].
  simpl in Hr, Hl. cbv zeta. rewrite Hr. auto.
Qed.

(** X4.  The loop stops early only at the end of the digits: when fewer
    than four characters were collected, the position after them is the end
    of the string or carries a character that does not satisfy [isdigit]. *)
Theorem while_digit_maximal (s : string) (k : nat) :
  length (while_digit (len s - k) s k []) < 4 ->
  at_digit s (k + length (while_digit (len s - k) s k [])) = false.
Proof.
  destruct (while_digit_spec s (len s - k) k []) as (tail & Hr & _ & _ & _ & Hm);
    [simpl; lia|].
  simpl in Hr, Hm. rewrite Hr. intros Hlt. apply Hm; [lia | exact Hlt].
Qed.

Lemma while_digit_maximal_witness :
  length (while_digit (len "a12b" - 1) "a12b" 1 []) < 4
  /\ at_digit "a12b" (1 + length (while_digit (len "a12b" - 1) "a12b" 1 []))
     = false.
Proof.
  split; [vm_compute; lia|].
  apply (while_digit_maximal "a12b" 1). vm_compute. lia.
Defined.

(* ================================================================== *)
(** ** What a search records and raises, from any state *)
(* ================================================================== *)

Section Within.

Context {E : event -> Prop} {X : exn -> Prop}.

Lemma within_ret {A} (a : A) : within E X (ret a).
Proof. split; [constructor | exact I]. Qed.

Lemma within_raise {A} (e : exn) : X e -> within E X (@raise A e).
Proof. intros H. split; [constructor | exact H]. Qed.

Lemma within_out_of_fuel {A} : within E X (@out_of_fuel A).
Proof. split; [constructor | exact I]. Qed.

Lemma within_tell (ev : event) : E ev -> within E X (tell ev).
Proof. intros H. split; [repeat constructor; exact H | exact I]. Qed.

Lemma within_bind {A B} (m : M A) (f : A -> M B) :
  within E X m -> (forall a, within E X (f a)) -> within E X (bind m f).
Proof.
  destruct m as [t [a|e|]]; unfold within; simpl; intros [Ht Hr] Hf;
    try (split; assumption).
  specialize (Hf a). destruct (f a) as [t' o]. simpl in *.
  destruct Hf as [Ht' Ho]. split; [|exact Ho].
  apply Forall_app. split; assumption.
Qed.

Lemma within_for_any {A} (l : list A) (f : A -> M bool) :
  (forall x, In x l -> within E X (f x)) -> within E X (for_any l f).
Proof.
  induction l as [|x l IH]; intros H; cbn [for_any]; [apply within_ret|].
  apply within_bind; [apply H; left; reflexivity|].
  intros [|]; [apply within_ret|].
  apply IH. intros y Hy. apply H. right. exact Hy.
Qed.

Lemma within_get_options (segment : string) :
  E (EvGetOptions segment) -> X ValueError ->
  within E X (get_options segment).
Proof.
  intros He Hx. destruct segment as [|c [|c' rest]].
  - split; [repeat constructor; exact He | exact I].
  - rewrite get_options_one. split; [repeat constructor; exact He|].
    cbn [result snd]. destruct (digit_value c); [exact I | exact Hx].
  - rewrite get_options_long. split; [repeat constructor; exact He | exact Hx].
Qed.

End Within.

Lemma len_string_of_list_ascii (l : list ascii) :
  len (string_of_list_ascii l) = length l.
Proof.
  unfold len. induction l as [|c l IH]; simpl; [reflexivity|].
  rewrite IH. reflexivity.
Qed.

Lemma all_chars_string_of_list_ascii (p : ascii -> bool) (l : list ascii) :
  all_chars p (string_of_list_ascii l) = forallb p l.
Proof.
  induction l as [|c l IH]; simpl; [reflexivity|]. rewrite IH. reflexivity.
Qed.

Lemma forallb_firstn {A} (p : A -> bool) (l : list A) : forall n,
  forallb p l = true -> forallb p (firstn n l) = true.
Proof.
  induction l as [|x l IH]; intros [|n] H; simpl in *; try reflexivity.
  apply andb_true_iff in H. destruct H as [Hx Hl].
  rewrite Hx, (IH n Hl). reflexivity.
Qed.

(** Every prefix of the collected digits that [dfs] passes to
    [get_options] is a digit window. *)
Lemma seg_is_digit_window (s : string) (k seg_len : nat) :
  In seg_len (range 1 (length (while_digit (len s - k) s k []) + 1)) ->
  digit_window
    (string_of_list_ascii (firstn seg_len (while_digit (len s - k) s k []))).
Proof.
  intros Hin. apply in_range in Hin.
  destruct (while_digit_spec s (len s - k) k [])
    as (tail & Hr & Hl & Hd & _); [simpl; lia|].
  simpl in Hr, Hl. rewrite Hr in *. unfold digit_window.
  rewrite len_string_of_list_ascii, all_chars_string_of_list_ascii.
  rewrite length_firstn. split; [lia|].
  apply forallb_firstn. exact Hd.
Qed.

Section SearchInvariants.

Variables s1 s2 : string.
Variable E : event -> Prop.
Variable X : exn -> Prop.
Hypothesis X_value_error : X ValueError.
Hypothesis E_window : forall segment,
  digit_window segment -> E (EvGetOptions segment).

(** The body of [dfs] stays within [E] and [X] when its recursive calls
    do; the calls are made at cursors that are not behind the current ones
    and that stay inside a string whenever the current one is inside. *)
Lemma dfs_body_within (rec : nat -> nat -> Z -> M bool)
  (i j : nat) (diff : Z) :
  (forall i' j' diff',
      i <= i' -> j <= j' ->
      (i <= len s1 -> i' <= len s1) -> (j <= len s2 -> j' <= len s2) ->
      within E X (rec i' j' diff')) ->
  within E X (dfs_body s1 s2 rec i j diff).
Proof.
  intros H. unfold dfs_body.
  destruct ((i =? len s1) && (j =? len s2)); [apply within_ret|].
  destruct (diff =? 0)%Z.
  { destruct (Nat.ltb_spec i (len s1)) as [Hi|Hi];
      destruct (Nat.ltb_spec j (len s2)) as [Hj|Hj]; cbn [andb];
        try (rewrite bind_ret_l; apply within_ret).
    destruct (get_lt s1 i Hi) as [a Ha]. destruct (get_lt s2 j Hj) as [b Hb].
    unfold getitem. rewrite Ha, Hb, ?bind_ret_l.
    destruct (isalpha a); rewrite ?bind_ret_l; [|apply within_ret].
    destruct (isalpha b); rewrite ?bind_ret_l; [|apply within_ret].
    destruct (Ascii.eqb a b); cbn [negb]; [apply H; lia | apply within_ret]. }
  destruct (diff >? 0)%Z.
  - destruct (Nat.leb_spec (len s2) j) as [Hj|Hj]; [apply within_ret|].
    destruct (get_lt s2 j Hj) as [b Hb].
    unfold getitem. rewrite Hb, bind_ret_l. destruct (isalpha b).
    + apply H; lia.
    + apply within_for_any. intros seg_len Hin.
      pose proof (seg_is_digit_window s2 j seg_len Hin) as Hw.
      apply seg_len_bounds in Hin; [|exact Hj].
      apply within_bind;
        [apply within_get_options; [apply E_window; exact Hw
                                   | exact X_value_error]|].
      intros vals. apply within_for_any. intros val _. apply H; lia.
  - destruct (Nat.leb_spec (len s1) i) as [Hi|Hi]; [apply within_ret|].
    destruct (get_lt s1 i Hi) as [a Ha].
    unfold getitem. rewrite Ha, bind_ret_l. destruct (isalpha a).
    + apply H; lia.
    + apply within_for_any. intros seg_len Hin.
      pose proof (seg_is_digit_window s1 i seg_len Hin) as Hw.
      apply seg_len_bounds in Hin; [|exact Hi].
      apply within_bind;
        [apply within_get_options; [apply E_window; exact Hw
                                   | exact X_value_error]|].
      intros vals. apply within_for_any. intros val _. apply H; lia.
Qed.

End SearchInvariants.

Lemma dfs_raises_value_error_only (s1 s2 : string) : forall fuel i j diff,
  within (fun _ => True) (eq ValueError) (dfs s1 s2 fuel i j diff).
Proof.
  induction fuel as [|fuel IH]; intros i j diff; cbn [dfs];
    [apply within_out_of_fuel|].
  apply within_bind; [apply within_tell; exact I | intros _].
  apply dfs_body_within; [reflexivity | intros; exact I |].
  intros i' j' diff' _ _ _ _. apply IH.
Qed.

Lemma dfs_calls_in_bounds (s1 s2 : string) (i0 j0 : nat) :
  forall fuel i j diff,
  i0 <= i <= len s1 -> j0 <= j <= len s2 ->
  within (call_in_bounds s1 s2 i0 j0) (eq ValueError)
         (dfs s1 s2 fuel i j diff).
Proof.
  induction fuel as [|fuel IH]; intros i j diff Hi Hj; cbn [dfs];
    [apply within_out_of_fuel|].
  apply within_bind; [apply within_tell; simpl; lia | intros _].
  apply dfs_body_within;
    [reflexivity | intros segment Hs; exact Hs |].
  intros i' j' diff' Hi1 Hj1 Hi2 Hj2. apply IH; lia.
Qed.

(** X6.  A search started with its cursors inside the strings keeps them
    there: every entry into [dfs] it records has cursors that are not
    behind the starting ones and not beyond the ends of the strings, and
    every call of [get_options] it records is made on one to four
    characters that all satisfy [isdigit] (never on the empty segment). *)
Theorem dfs_keeps_cursors_in_bounds (s1 s2 : string) (fuel i j : nat)
  (diff : Z) :
  i <= len s1 -> j <= len s2 ->
  Forall (call_in_bounds s1 s2 i j) (trace (dfs s1 s2 fuel i j diff)).
Proof.
  intros Hi Hj. apply (dfs_calls_in_bounds s1 s2 i j fuel i j diff); lia.
Qed.

Lemma dfs_keeps_cursors_in_bounds_witness :
  0 <= len "a12" /\ 1 <= len "bc9"
  /\ Forall (call_in_bounds "a12" "bc9" 0 1)
            (trace (dfs "a12" "bc9" 6 0 1 2)).
Proof.
  split; [vm_compute; lia|]. split; [vm_compute; lia|].
  apply (dfs_keeps_cursors_in_bounds "a12" "bc9" 6 0 1 2); vm_compute; lia.
Defined.

(* ================================================================== *)
(** ** The two halves of the search mirror each other *)
(* ================================================================== *)

Lemma result_bind {A B} (m : M A) (f : A -> M B) :
  result (bind m f)
  = match result m with
    | Ret a => result (f a)
    | Raise e => Raise e
    | OutOfFuel => OutOfFuel
    end.
Proof.
  destruct m as [t [a|e|]]; simpl; try reflexivity.
  destruct (f a) as [t' o]. reflexivity.
Qed.

Lemma result_for_any_ext {A} (l : list A) (f g : A -> M bool) :
  (forall x, In x l -> result (f x) = result (g x)) ->
  result (for_any l f) = result (for_any l g).
Proof.
  induction l as [|x l IH]; intros H; [reflexivity|].
  cbn [for_any]. rewrite !result_bind, (H x (or_introl eq_refl)).
  destruct (result (g x)) as [[|]| |]; try reflexivity.
  apply IH. intros y Hy. apply H. right. exact Hy.
Qed.

Lemma dfs_body_mirror (s1 s2 : string)
  (rec rec' : nat -> nat -> Z -> M bool) (i j : nat) (diff : Z) :
  (forall i' j' diff',
      result (rec i' j' diff') = result (rec' j' i' (- diff')%Z)) ->
  result (dfs_body s1 s2 rec i j diff)
  = result (dfs_body s2 s1 rec' j i (- diff)%Z).
Proof.
  intros H. unfold dfs_body.
  rewrite (andb_comm (j =? len s2) (i =? len s1)).
  destruct ((i =? len s1) && (j =? len s2)).
  { destruct diff; reflexivity. }
  destruct diff as [|p|p]; cbn [Z.opp Z.eqb Z.gtb Z.compare].
  - rewrite (andb_comm (j <? len s2) (i <? len s1)).
    destruct (Nat.ltb_spec i (len s1)) as [Hi|Hi];
      destruct (Nat.ltb_spec j (len s2)) as [Hj|Hj]; cbn [andb];
        try reflexivity.
    destruct (get_lt s1 i Hi) as [a Ha]. destruct (get_lt s2 j Hj) as [b Hb].
    unfold getitem. rewrite Ha, Hb, ?bind_ret_l.
    rewrite (Ascii.eqb_sym b a).
    destruct (isalpha a), (isalpha b); rewrite ?bind_ret_l; try reflexivity.
    destruct (Ascii.eqb a b); cbn [negb]; [|reflexivity].
    apply (H (i + 1) (j + 1) 0%Z).
  - destruct (len s2 <=? j); [reflexivity|].
    rewrite !result_bind. destruct (result (getitem s2 j)) as [b| |];
      try reflexivity.
    destruct (isalpha b).
    + rewrite H. f_equal. f_equal. lia.
    + apply result_for_any_ext. intros seg_len _.
      rewrite !result_bind.
      destruct (result (get_options _)) as [vals| |]; try reflexivity.
      apply result_for_any_ext. intros val _.
      rewrite H. f_equal. f_equal. lia.
  - destruct (len s1 <=? i); [reflexivity|].
    rewrite !result_bind. destruct (result (getitem s1 i)) as [a| |];
      try reflexivity.
    destruct (isalpha a).
    + rewrite H. f_equal. f_equal. lia.
    + apply result_for_any_ext. intros seg_len _.
      rewrite !result_bind.
      destruct (result (get_options _)) as [vals| |]; try reflexivity.
      apply result_for_any_ext. intros val _.
      rewrite H. f_equal. f_equal. lia.
Qed.

(** X7.  The search is symmetric from every state: exchanging the two
    strings together with their cursors and negating the imbalance gives
    the same returned value or the same exception. *)
Theorem dfs_mirror (s1 s2 : string) (fuel i j : nat) (diff : Z) :
  result (dfs s1 s2 fuel i j diff) = result (dfs s2 s1 fuel j i (- diff)%Z).
Proof.
  revert i j diff. induction fuel as [|fuel IH]; intros i j diff;
    [reflexivity|].
  cbn [dfs]. rewrite !result_tell_bind.
  apply dfs_body_mirror. intros i' j' diff'. apply IH.
Qed.

(* ================================================================== *)
(** ** A pending imbalance: letters and digits of the other string *)
(* ================================================================== *)

Lemma dfs_skip_letters_aux (s1 s2 : string) (i : nat) : i <= len s1 ->
  forall n fuel j,
  j <= len s2 -> remaining s1 s2 i j < fuel ->
  all_chars isalpha (substring j (S n) s2) = true ->
  result (dfs s1 s2 fuel i j (Z.of_nat (S n)))
  = Ret ((j + S n <=? len s2) && sync (drop i s1) (drop (j + S n) s2)).
Proof.
  intros Hi. induction n as [|n IH]; intros fuel j Hj Hf Hall;
    (destruct fuel as [|fuel]; [lia|]);
    cbn [dfs]; rewrite result_tell_bind; unfold dfs_body;
    (destruct ((i =? len s1) && (j =? len s2)) eqn:Eend;
     [ apply andb_true_iff in Eend; destruct Eend as [_ Ej];
       apply Nat.eqb_eq in Ej;
       replace (j + _ <=? len s2) with false
         by (symmetry; apply Nat.leb_gt; lia);
       reflexivity |]);
    change (Z.of_nat (S ?k) =? 0)%Z with false; cbv iota;
    change (Z.of_nat (S ?k) >? 0)%Z with true; cbv iota;
    (destruct (Nat.leb_spec (len s2) j) as [Hj'|Hj'];
     [ replace (j + _ <=? len s2) with false
         by (symmetry; apply Nat.leb_gt; lia);
       reflexivity |]);
    destruct (get_lt s2 j Hj') as [b Hb];
    rewrite (substring_get s2 j _ b Hb) in Hall; cbn [all_chars] in Hall;
    apply andb_true_iff in Hall; destruct Hall as [Hb' Hrest];
    unfold getitem; rewrite Hb, bind_ret_l, Hb'.
  - replace (Z.of_nat 1 - 1)%Z with 0%Z by lia.
    destruct (dfs_sync s1 s2 fuel i (j + 1)) as [Hr _];
      try lia; [unfold remaining in *; lia|].
    rewrite Hr.
    replace (j + 1 <=? len s2) with true by (symmetry; apply Nat.leb_le; lia).
    reflexivity.
  - replace (Z.of_nat (S (S n)) - 1)%Z with (Z.of_nat (S n)) by lia.
    rewrite IH; try lia.
    + replace (j + 1 + S n) with (j + S (S n)) by lia. reflexivity.
    + unfold remaining in *. lia.
    + replace (j + 1) with (S j) by lia. exact Hrest.
Qed.

(** X8.  A positive imbalance [n] is paid by the next [n] characters of
    [s2] when they are letters: if the (at most [n]) characters of [s2]
    from [j] are all letters, [dfs(i, j, n)] returns [True] exactly when
    [s2] has [n] characters left and the rest of the two strings then
    matches letter for letter. *)
Theorem dfs_skip_letters (s1 s2 : string) (fuel i j n : nat) :
  i <= len s1 -> j <= len s2 -> remaining s1 s2 i j < fuel -> 0 < n ->
  all_chars isalpha (substring j n s2) = true ->
  result (dfs s1 s2 fuel i j (Z.of_nat n))
  = Ret ((j + n <=? len s2) && sync (drop i s1) (drop (j + n) s2)).
Proof.
  intros Hi Hj Hf Hn Hall. destruct n as [|n]; [lia|].
  apply dfs_skip_letters_aux; assumption.
Qed.

Lemma dfs_skip_letters_witness :
  0 <= len "cd" /\ 0 <= len "abcd" /\ remaining "cd" "abcd" 0 0 < 7 /\ 0 < 2
  /\ all_chars isalpha (substring 0 2 "abcd") = true
  /\ result (dfs "cd" "abcd" 7 0 0 (Z.of_nat 2))
     = Ret ((0 + 2 <=? len "abcd") && sync (drop 0 "cd") (drop (0 + 2) "abcd")).
Proof.
  split; [vm_compute; lia|]. split; [vm_compute; lia|].
  split; [vm_compute; lia|]. split; [lia|]. split; [reflexivity|].
  apply (dfs_skip_letters "cd" "abcd" 7 0 0 2);
    try (vm_compute; lia); reflexivity.
Defined.

Lemma digit_value_isdigit (c : ascii) (v : Z) :
  digit_value c = Some v -> isdigit c = true.
Proof.
  unfold digit_value, isdigit.
  destruct (between 48 57 (code c)); [reflexivity | discriminate].
Qed.

Lemma while_digit_one (s : string) (k : nat) (c : ascii) :
  String.get k s = Some c -> isdigit c = true ->
  at_digit s (k + 1) = false ->
  while_digit (len s - k) s k [] = [c].
Proof.
  intros Hc Hd Hnext. pose proof (get_some_lt _ _ _ Hc) as Hk.
  replace (len s - k) with (S (len s - (k + 1))) by lia.
  cbn [while_digit]. rewrite Hc, Hd. cbn [app length Nat.ltb Nat.leb].
  destruct (len s - (k + 1)) as [|m]; [reflexivity|].
  cbn [while_digit]. unfold at_digit in Hnext.
  destruct (String.get (k + 1) s) as [c'|]; [|reflexivity].
  rewrite Hnext. reflexivity.
Qed.

(** X9.  A lone decimal digit is worth its value: with a positive
    imbalance, a decimal digit of value [v] under the cursor of [s2] and no
    digit after it, [dfs(i, j, diff)] calls [get_options] on that digit and
    then returns what [dfs(i, j+1, diff - v)] returns (or raises what it
    raises). *)
Theorem dfs_single_digit (s1 s2 : string) (fuel i j : nat) (diff : Z)
  (c : ascii) (v : Z) :
  (0 < diff)%Z -> String.get j s2 = Some c -> digit_value c = Some v ->
  at_digit s2 (j + 1) = false ->
  dfs s1 s2 (S fuel) i j diff
  = (EvDfs i j diff :: EvGetOptions (String c EmptyString)
       :: trace (dfs s1 s2 fuel i (j + 1) (diff - v)%Z),
     result (dfs s1 s2 fuel i (j + 1) (diff - v)%Z)).
Proof.
  intros Hdiff Hc Hv Hnext.
  pose proof (get_some_lt _ _ _ Hc) as Hj.
  pose proof (digit_value_isdigit c v Hv) as Hd.
  cbn [dfs]. unfold dfs_body.
  replace (j =? len s2) with false by (symmetry; apply Nat.eqb_neq; lia).
  rewrite andb_false_r.
  replace (diff =? 0)%Z with false by (symmetry; apply Z.eqb_neq; lia).
  replace (diff >? 0)%Z with true by (symmetry; apply Z.gtb_lt; lia).
  replace (len s2 <=? j) with false by (symmetry; apply Nat.leb_gt; lia).
  unfold getitem. rewrite Hc, bind_ret_l, (isdigit_not_alpha c Hd).
  rewrite (while_digit_one s2 j c Hc Hd Hnext).
  cbn [length Nat.add range Nat.sub seq for_any firstn string_of_list_ascii].
  rewrite get_options_one, Hv. unfold tell. cbn [bind for_any app].
  destruct (dfs s1 s2 fuel i (j + 1) (diff - v)%Z) as [t [[|]|e|]];
    cbn; rewrite ?app_nil_r; reflexivity.
Qed.

Lemma dfs_single_digit_witness :
  (0 < 3)%Z /\ String.get 1 "a3b" = Some "3"%char
  /\ digit_value "3"%char = Some 3%Z /\ at_digit "a3b" (1 + 1) = false
  /\ dfs "xyzb" "a3b" (S 4) 3 1 3
     = (EvDfs 3 1 3 :: EvGetOptions "3"
          :: trace (dfs "xyzb" "a3b" 4 3 (1 + 1) (3 - 3)%Z),
        result (dfs "xyzb" "a3b" 4 3 (1 + 1) (3 - 3)%Z)).
Proof.
  split; [lia|]. split; [reflexivity|]. split; [reflexivity|].
  split; [reflexivity|].
  apply (dfs_single_digit "xyzb" "a3b" 4 3 1 3 "3"%char 3%Z);
    try reflexivity; lia.
Defined.

Lemma while_digit_two (s : string) (k : nat) (c c' : ascii) :
  String.get k s = Some c -> isdigit c = true ->
  String.get (k + 1) s = Some c' -> isdigit c' = true ->
  exists tail, while_digit (len s - k) s k [] = c :: c' :: tail.
Proof.
  intros Hc Hd Hc' Hd'. pose proof (get_some_lt _ _ _ Hc') as Hk.
  replace (len s - k) with (S (S (len s - (k + 1 + 1)))) by lia.
  cbn [while_digit]. rewrite Hc, Hd. cbn [app length Nat.ltb Nat.leb].
  rewrite Hc', Hd'. cbn [app length Nat.ltb Nat.leb].
  destruct (while_digit_spec s (len s - (k + 1 + 1)) (k + 1 + 1) [c; c'])
    as (tail & Hr & _); [simpl; lia|].
  exists tail. exact Hr.
Qed.

(** X10.  A run of two digits or more is never turned down: with a
    positive imbalance and characters satisfying [isdigit] at [j] and
    [j+1] of [s2], [dfs(i, j, diff)] either returns [True] (through the
    first digit alone) or raises ValueError (when it goes on to the
    two-digit prefix); it never returns [False]. *)
Theorem dfs_digit_run_true_or_raises (s1 s2 : string) (fuel i j : nat)
  (diff : Z) :
  (0 < diff)%Z -> at_digit s2 j = true -> at_digit s2 (j + 1) = true ->
  remaining s1 s2 i j < fuel ->
  result (dfs s1 s2 fuel i j diff) = Ret true
  \/ result (dfs s1 s2 fuel i j diff) = Raise ValueError.
Proof.
  unfold at_digit. intros Hdiff H0 H1 Hf.
  destruct (String.get j s2) as [c|] eqn:Hc; [|discriminate].
  destruct (String.get (j + 1) s2) as [c'|] eqn:Hc'; [|discriminate].
  pose proof (get_some_lt _ _ _ Hc') as Hj.
  destruct fuel as [|fuel]; [lia|].
  cbn [dfs]. rewrite result_tell_bind. unfold dfs_body.
  replace (j =? len s2) with false by (symmetry; apply Nat.eqb_neq; lia).
  rewrite andb_false_r.
  replace (diff =? 0)%Z with false by (symmetry; apply Z.eqb_neq; lia).
  replace (diff >? 0)%Z with true by (symmetry; apply Z.gtb_lt; lia).
  replace (len s2 <=? j) with false by (symmetry; apply Nat.leb_gt; lia).
  unfold getitem. rewrite Hc, bind_ret_l, (isdigit_not_alpha c H0).
  destruct (while_digit_two s2 j c c' Hc H0 Hc' H1) as [tail ->].
  cbn [length]. unfold range.
  replace (S (S (length tail)) + 1 - 1) with (S (S (length tail))) by lia.
  cbn [seq for_any firstn string_of_list_ascii].
  rewrite result_bind, result_bind, get_options_one.
  destruct (digit_value c) as [v|]; cbn [result snd]; [|right; reflexivity].
  cbn [for_any]. rewrite result_bind.
  pose proof (dfs_finished s1 s2 fuel i (j + 1) (diff - v)%Z) as Hfin.
  pose proof (dfs_raises_value_error_only s1 s2 fuel i (j + 1) (diff - v)%Z)
    as [_ Hexn].
  destruct (result (dfs s1 s2 fuel i (j + 1) (diff - v)%Z)) as [[|]|e|].
  - left. reflexivity.
  - right. cbn [result ret snd].
    rewrite result_bind, result_bind, get_options_long. reflexivity.
  - right. rewrite <- Hexn. reflexivity.
  - unfold remaining in *. simpl in Hfin.
    assert (false = true) by (apply Hfin; lia). discriminate.
Qed.

Lemma dfs_digit_run_true_or_raises_witness :
  (0 < 1)%Z /\ at_digit "x12" 1 = true /\ at_digit "x12" (1 + 1) = true
  /\ remaining "ab" "x12" 0 1 < 5
  /\ (result (dfs "ab" "x12" 5 0 1 1) = Ret true
      \/ result (dfs "ab" "x12" 5 0 1 1) = Raise ValueError).
Proof.
  split; [lia|]. split; [reflexivity|]. split; [reflexivity|].
  split; [vm_compute; lia|].
  apply (dfs_digit_run_true_or_raises "ab" "x12" 5 0 1 1);
    try reflexivity; try lia. vm_compute. lia.
Defined.

(* ================================================================== *)
(** ** The entry point on arbitrary strings *)
(* ================================================================== *)

Lemma diagonal_calls_shift (i j n : nat) :
  EvDfs i j 0 :: map (fun k => EvDfs (i + 1 + k) (j + 1 + k) 0) (seq 0 n)
  = map (fun k => EvDfs (i + k) (j + k) 0) (seq 0 (S n)).
Proof.
  cbn [seq map]. rewrite <- seq_shift, map_map, !Nat.add_0_r. f_equal.
  apply map_ext. intros k. f_equal; lia.
Qed.

Section SyncCalls.

Variables s1 s2 : string.

(** One step of the search at imbalance 0. *)
Lemma dfs_sync_step (fuel i j : nat) :
  i <= len s1 -> j <= len s2 ->
  dfs s1 s2 (S fuel) i j 0
  = match common_letters (drop i s1) (drop j s2) with
    | O => ([EvDfs i j 0], Ret (sync (drop i s1) (drop j s2)))
    | S _ => tell (EvDfs i j 0) ;; dfs s1 s2 fuel (i + 1) (j + 1) 0
    end.
Proof.
  intros Hi Hj. cbn [dfs]. unfold dfs_body.
  destruct (Nat.eqb_spec i (len s1)) as [Ei|Ei];
    destruct (Nat.eqb_spec j (len s2)) as [Ej|Ej]; cbn [andb Z.eqb].
  - rewrite !drop_all by lia. reflexivity.
  - replace (i <? len s1) with false by (symmetry; apply Nat.ltb_ge; lia).
    cbn [andb]. rewrite bind_ret_l, (drop_all s1) by lia.
    destruct (drop j s2) eqn:Ed;
      [exfalso; revert Ed; apply drop_nonempty; lia | reflexivity].
  - replace (i <? len s1) with true by (symmetry; apply Nat.ltb_lt; lia).
    replace (j <? len s2) with false by (symmetry; apply Nat.ltb_ge; lia).
    cbn [andb]. rewrite bind_ret_l, (drop_all s2) by lia.
    destruct (drop i s1) eqn:Ed;
      [exfalso; revert Ed; apply drop_nonempty; lia | reflexivity].
  - replace (i <? len s1) with true by (symmetry; apply Nat.ltb_lt; lia).
    replace (j <? len s2) with true by (symmetry; apply Nat.ltb_lt; lia).
    cbn [andb].
    destruct (get_lt s1 i) as [a Ha]; [lia|].
    destruct (get_lt s2 j) as [b Hb]; [lia|].
    unfold getitem.
    rewrite Ha, Hb, (drop_get _ _ _ Ha), (drop_get _ _ _ Hb), ?bind_ret_l.
    cbn [sync common_letters].
    destruct (isalpha a); rewrite ?bind_ret_l; [|reflexivity].
    destruct (isalpha b); rewrite ?bind_ret_l; [|reflexivity].
    destruct (Ascii.eqb a b); reflexivity.
Qed.

Lemma dfs_sync_trace : forall fuel i j,
  i <= len s1 -> j <= len s2 -> remaining s1 s2 i j < fuel ->
  trace (dfs s1 s2 fuel i j 0)
  = map (fun k => EvDfs (i + k) (j + k) 0)
        (seq 0 (S (common_letters (drop i s1) (drop j s2)))).
Proof.
  induction fuel as [|fuel IH]; intros i j Hi Hj Hf; [lia|].
  rewrite dfs_sync_step by assumption.
  destruct (common_letters (drop i s1) (drop j s2)) as [|p] eqn:Ep.
  - simpl. rewrite !Nat.add_0_r. reflexivity.
  - assert (Hlt : i < len s1 /\ j < len s2).
    { split; apply Nat.nle_gt; intros Hge;
        [rewrite (drop_all s1) in Ep by lia
        |rewrite (drop_all s2) in Ep by lia];
        simpl in Ep; [|destruct (drop i s1)]; discriminate. }
    destruct Hlt as [Hi' Hj'].
    destruct (get_lt s1 i Hi') as [a Ha]. destruct (get_lt s2 j Hj') as [b Hb].
    rewrite (drop_get _ _ _ Ha), (drop_get _ _ _ Hb) in Ep.
    cbn [common_letters] in Ep.
    destruct (isalpha a && isalpha b && Ascii.eqb a b); [|discriminate].
    apply eq_add_S in Ep.
    rewrite trace_tell_bind, IH; try lia; [|unfold remaining in *; lia].
    replace (common_letters (drop (i + 1) s1) (drop (j + 1) s2)) with p
      by (rewrite <- Ep; f_equal; f_equal; lia).
    apply diagonal_calls_shift.
Qed.

End SyncCalls.

(** X11.  The calls made by [possiblyEquals] are exactly
    [dfs(0,0,0), dfs(1,1,0), ..., dfs(p,p,0)], where [p] is the number of
    leading positions at which the two strings carry the same letter; so
    there are at most [min(len(s1), len(s2)) + 1] of them. *)
Theorem possiblyEquals_calls (s1 s2 : string) :
  trace (possiblyEquals s1 s2)
  = map (fun k => EvDfs k k 0) (seq 0 (S (common_letters s1 s2)))
  /\ length (trace (possiblyEquals s1 s2)) <= S (min (len s1) (len s2)).
Proof.
  assert (Ht : trace (possiblyEquals s1 s2)
               = map (fun k => EvDfs k k 0) (seq 0 (S (common_letters s1 s2)))).
  { unfold possiblyEquals.
    rewrite (dfs_sync_trace s1 s2 (S (len s1 + len s2)) 0 0);
      try lia; [reflexivity | unfold remaining; lia]. }
  split; [exact Ht|].
  rewrite Ht, length_map, length_seq.
  assert (Hc : forall a b, common_letters a b <= min (len a) (len b)).
  { unfold len. induction a as [|x a IH]; intros [|y b]; simpl; try lia.
    destruct (isalpha x && isalpha y && Ascii.eqb x y); [|lia].
    specialize (IH b). lia. }
  specialize (Hc s1 s2). lia.
Qed.

(** X13.  [possiblyEquals] is transitive: if it returns [True] on
    [s1], [s2] and on [s2], [s3], it returns [True] on [s1], [s3]. *)
Theorem possiblyEquals_trans (s1 s2 s3 : string) :
  result (possiblyEquals s1 s2) = Ret true ->
  result (possiblyEquals s2 s3) = Ret true ->
  result (possiblyEquals s1 s3) = Ret true.
Proof.
  destruct (possiblyEquals_sync s1 s2) as [-> _].
  destruct (possiblyEquals_sync s2 s3) as [-> _].
  destruct (possiblyEquals_sync s1 s3) as [-> _].
  intros H12 H23. injection H12 as H12. injection H23 as H23. f_equal.
  apply sync_true_iff in H12, H23. apply sync_true_iff.
  destruct H12 as [-> Ha], H23 as [-> _]. auto.
Qed.

Lemma possiblyEquals_trans_witness :
  result (possiblyEquals "ab" "ab") = Ret true
  /\ result (possiblyEquals "ab" "ab") = Ret true.
Proof.
  split; [reflexivity|].
  apply (possiblyEquals_trans "ab" "ab" "ab"); reflexivity.
Defined.

Lemma sync_len (a : string) : forall b, sync a b = true -> len a = len b.
Proof.
  intros b H. apply sync_true_iff in H. destruct H as [-> _]. reflexivity.
Qed.

(** X14.  Two strings of different lengths are never matched:
    [possiblyEquals] returns [False]. *)
Theorem possiblyEquals_length_mismatch (s1 s2 : string) :
  len s1 <> len s2 -> result (possiblyEquals s1 s2) = Ret false.
Proof.
  intros Hn. destruct (possiblyEquals_sync s1 s2) as [-> _]. f_equal.
  destruct (sync s1 s2) eqn:E; [|reflexivity].
  apply sync_len in E. contradiction.
Qed.

Lemma possiblyEquals_length_mismatch_witness :
  len "a1" <> len "abc"
  /\ result (possiblyEquals "a1" "abc") = Ret false.
Proof.
  split; [vm_compute; lia|].
  apply (possiblyEquals_length_mismatch "a1" "abc"). vm_compute. lia.
Defined.

Lemma sync_app (a : string) : forall b c d,
  len a = len b ->
  sync (a ++ c)%string (b ++ d)%string = sync a b && sync c d.
Proof.
  unfold len. induction a as [|x a IH]; intros [|y b] c d H; simpl in H;
    try discriminate; [reflexivity|].
  cbn [String.append sync]. rewrite IH by lia.
  rewrite !andb_assoc. reflexivity.
Qed.

(** X15.  Matching goes part by part: when [a] and [b] have the same
    length, [possiblyEquals(a + c, b + d)] is the conjunction of
    [possiblyEquals(a, b)] and [possiblyEquals(c, d)]. *)
Theorem possiblyEquals_concat (a b c d : string) :
  len a = len b ->
  exists x y : bool,
    result (possiblyEquals a b) = Ret x
    /\ result (possiblyEquals c d) = Ret y
    /\ result (possiblyEquals (a ++ c)%string (b ++ d)%string) = Ret (x && y).
Proof.
  intros H. exists (sync a b), (sync c d).
  split; [apply possiblyEquals_sync|]. split; [apply possiblyEquals_sync|].
  destruct (possiblyEquals_sync (a ++ c)%string (b ++ d)%string) as [-> _].
  rewrite (sync_app a b c d H). reflexivity.
Qed.

Lemma possiblyEquals_concat_witness :
  len "ab" = len "ab"
  /\ exists x y : bool,
       result (possiblyEquals "ab" "ab") = Ret x
       /\ result (possiblyEquals "c1" "c1") = Ret y
       /\ result (possiblyEquals ("ab" ++ "c1")%string ("ab" ++ "c1")%string)
          = Ret (x && y).
Proof.
  split; [reflexivity|].
  apply (possiblyEquals_concat "ab" "ab" "c1" "c1"). reflexivity.
Defined.

(* ================================================================== *)
(** ** The search under the recursion limit *)
(* ================================================================== *)

Section Limited.

Variables s1 s2 : string.

(** The body of [dfs] at imbalance 0, whatever the recursive call does:
    it answers at once when the two cursors do not carry the same letter,
    and makes one recursive call when they do. *)
Lemma dfs_body_sync (rec : nat -> nat -> Z -> M bool) (i j : nat) :
  i <= len s1 -> j <= len s2 ->
  dfs_body s1 s2 rec i j 0
  = match common_letters (drop i s1) (drop j s2) with
    | O => ret (sync (drop i s1) (drop j s2))
    | S _ => rec (i + 1) (j + 1) 0%Z
    end.
Proof.
  intros Hi Hj. unfold dfs_body.
  destruct (Nat.eqb_spec i (len s1)) as [Ei|Ei];
    destruct (Nat.eqb_spec j (len s2)) as [Ej|Ej]; cbn [andb Z.eqb].
  - rewrite !drop_all by lia. reflexivity.
  - replace (i <? len s1) with false by (symmetry; apply Nat.ltb_ge; lia).
    cbn [andb]. rewrite bind_ret_l, (drop_all s1) by lia.
    destruct (drop j s2) eqn:Ed;
      [exfalso; revert Ed; apply drop_nonempty; lia | reflexivity].
  - replace (i <? len s1) with true by (symmetry; apply Nat.ltb_lt; lia).
    replace (j <? len s2) with false by (symmetry; apply Nat.ltb_ge; lia).
    cbn [andb]. rewrite bind_ret_l, (drop_all s2) by lia.
    destruct (drop i s1) eqn:Ed;
      [exfalso; revert Ed; apply drop_nonempty; lia | reflexivity].
  - replace (i <? len s1) with true by (symmetry; apply Nat.ltb_lt; lia).
    replace (j <? len s2) with true by (symmetry; apply Nat.ltb_lt; lia).
    cbn [andb].
    destruct (get_lt s1 i) as [a Ha]; [lia|].
    destruct (get_lt s2 j) as [b Hb]; [lia|].
    unfold getitem.
    rewrite Ha, Hb, (drop_get _ _ _ Ha), (drop_get _ _ _ Hb), ?bind_ret_l.
    cbn [sync common_letters].
    destruct (isalpha a); rewrite ?bind_ret_l; [|reflexivity].
    destruct (isalpha b); rewrite ?bind_ret_l; [|reflexivity].
    destruct (Ascii.eqb a b); reflexivity.
Qed.

Lemma common_letters_step (i j p : nat) :
  common_letters (drop i s1) (drop j s2) = S p ->
  i < len s1 /\ j < len s2
  /\ common_letters (drop (i + 1) s1) (drop (j + 1) s2) = p
  /\ sync (drop i s1) (drop j s2) = sync (drop (i + 1) s1) (drop (j + 1) s2).
Proof.
  intros Ep.
  assert (Hi : i < len s1).
  { apply Nat.nle_gt. intros Hge. rewrite (drop_all s1) in Ep by lia.
    discriminate. }
  assert (Hj : j < len s2).
  { apply Nat.nle_gt. intros Hge. rewrite (drop_all s2) in Ep by lia.
    destruct (drop i s1); discriminate. }
  destruct (get_lt s1 i Hi) as [a Ha]. destruct (get_lt s2 j Hj) as [b Hb].
  replace (i + 1) with (S i) by lia. replace (j + 1) with (S j) by lia.
  rewrite (drop_get _ _ _ Ha), (drop_get _ _ _ Hb) in *.
  cbn [common_letters sync] in *.
  destruct (isalpha a && isalpha b && Ascii.eqb a b); [|discriminate].
  apply eq_add_S in Ep. auto.
Qed.

(** From a synchronized state the limited search returns what the
    unlimited one decides when the letters shared from the cursors on are
    fewer than the frames left, and raises RecursionError otherwise. *)
Lemma dfs_limited_sync : forall frames i j,
  i <= len s1 -> j <= len s2 ->
  result (dfs_limited s1 s2 frames i j 0)
  = if common_letters (drop i s1) (drop j s2) <? frames
    then Ret (sync (drop i s1) (drop j s2))
    else Raise RecursionError.
Proof.
  induction frames as [|frames IH]; intros i j Hi Hj; [reflexivity|].
  cbn [dfs_limited]. rewrite result_tell_bind, dfs_body_sync by assumption.
  destruct (common_letters (drop i s1) (drop j s2)) as [|p] eqn:Ep;
    [reflexivity|].
  destruct (common_letters_step i j p Ep) as (Hi' & Hj' & Ep' & Es).
  rewrite IH by lia. rewrite Ep', Es. reflexivity.
Qed.

(** The limited search raises nothing but ValueError and RecursionError. *)
Lemma dfs_limited_raises : forall frames i j diff,
  within (fun _ => True) (fun e => e = ValueError \/ e = RecursionError)
         (dfs_limited s1 s2 frames i j diff).
Proof.
  induction frames as [|frames IH]; intros i j diff; cbn [dfs_limited];
    [apply within_raise; right; reflexivity|].
  apply within_bind; [apply within_tell; exact I | intros _].
  apply dfs_body_within; [left; reflexivity | intros; exact I |].
  intros i' j' diff' _ _ _ _. apply IH.
Qed.

End Limited.

Lemma common_letters_le (a : string) : forall b,
  common_letters a b <= min (len a) (len b).
Proof.
  unfold len. induction a as [|x a IH]; intros [|y b]; simpl; try lia.
  destruct (isalpha x && isalpha y && Ascii.eqb x y); [|lia].
  specialize (IH b). lia.
Qed.

Lemma possiblyEquals_limited_result (frames : nat) (s1 s2 : string) :
  result (possiblyEquals_limited frames s1 s2)
  = if common_letters s1 s2 <? frames
    then Ret (sync s1 s2) else Raise RecursionError.
Proof.
  unfold possiblyEquals_limited.
  rewrite (dfs_limited_sync s1 s2 frames 0 0) by lia. reflexivity.
Qed.

(** With frames enough for the letters the two strings share, the limit
    changes nothing: the limited run returns what [possiblyEquals]
    returns. *)
Lemma possiblyEquals_limited_agrees (frames : nat) (s1 s2 : string) :
  common_letters s1 s2 < frames ->
  result (possiblyEquals_limited frames s1 s2) = result (possiblyEquals s1 s2).
Proof.
  intros H. rewrite possiblyEquals_limited_result.
  replace (common_letters s1 s2 <? frames) with true
    by (symmetry; apply Nat.ltb_lt; exact H).
  destruct (possiblyEquals_sync s1 s2) as [-> _]. reflexivity.
Qed.

Lemma well_formed_repeat_a (n : nat) :
  well_formed (repeat_char "a" n) = true.
Proof. induction n as [|n IH]; [reflexivity | exact IH]. Qed.

Lemma common_letters_repeat_a (n : nat) :
  common_letters (repeat_char "a" n) (repeat_char "a" n) = n.
Proof.
  induction n as [|n IH]; [reflexivity|].
  cbn [repeat_char common_letters].
  change (isalpha "a" && isalpha "a" && Ascii.eqb "a" "a") with true.
  cbv iota. rewrite IH. reflexivity.
Qed.

(** C6 fails as stated: the pair [('a' * 1000, 'a' * 1000)] is
    well-formed, every matched letter nests one more call of [dfs]
    (line 34), and with the 1000 nested calls that CPython's default
    recursion limit allows at most, [possiblyEquals] raises
    RecursionError. *)
Lemma possiblyEquals_raises_at_depth :
  well_formed (repeat_char "a" 1000) = true
  /\ result (possiblyEquals_limited 1000 (repeat_char "a" 1000)
                                         (repeat_char "a" 1000))
     = Raise RecursionError.
Proof.
  split; [apply well_formed_repeat_a|].
  rewrite possiblyEquals_limited_result, common_letters_repeat_a.
  reflexivity.
Qed.

(** C6, as the code has it.  On well-formed input [possiblyEquals] raises
    no exception but RecursionError, and it returns a boolean whenever the
    shorter string has fewer characters than the nested calls of [dfs] the
    recursion limit allows. *)
Theorem possiblyEquals_raises_only_past_limit (frames : nat)
  (s1 s2 : string) :
  well_formed s1 = true -> well_formed s2 = true ->
  (min (len s1) (len s2) < frames ->
   exists b : bool, result (possiblyEquals_limited frames s1 s2) = Ret b)
  /\ (forall e : exn,
         result (possiblyEquals_limited frames s1 s2) = Raise e ->
         e = RecursionError).
Proof.
  intros _ _. rewrite possiblyEquals_limited_result. split.
  - intros Hlen. pose proof (common_letters_le s1 s2) as Hc.
    replace (common_letters s1 s2 <? frames) with true
      by (symmetry; apply Nat.ltb_lt; lia).
    eauto.
  - intros e. destruct (common_letters s1 s2 <? frames); [discriminate|].
    intros H. injection H as <-. reflexivity.
Qed.

Lemma possiblyEquals_raises_only_past_limit_witness :
  well_formed "ab1" = true /\ well_formed "abc2" = true
  /\ min (len "ab1") (len "abc2") < 4
  /\ (exists b : bool, result (possiblyEquals_limited 4 "ab1" "abc2") = Ret b)
  /\ (result (possiblyEquals_limited 2 "ab1" "abc2") = Raise RecursionError ->
      RecursionError = RecursionError).
Proof.
  split; [reflexivity|]. split; [reflexivity|]. split; [vm_compute; lia|].
  split.
  - apply (possiblyEquals_raises_only_past_limit 4 "ab1" "abc2");
      try reflexivity. vm_compute. lia.
  - apply (possiblyEquals_raises_only_past_limit 2 "ab1" "abc2");
      reflexivity.
Defined.

(** X5.  From any state with cursors at or after position 0, inside the
    strings or beyond their ends, [dfs] never raises IndexError: every
    index is guarded by a test on the length.  The only exceptions are
    ValueError, out of [int] through [get_options], and RecursionError,
    when the calls nest beyond the limit. *)
Theorem dfs_never_index_error (s1 s2 : string) (frames i j : nat)
  (diff : Z) (e : exn) :
  result (dfs_limited s1 s2 frames i j diff) = Raise e ->
  e = ValueError \/ e = RecursionError.
Proof.
  intros H. destruct (dfs_limited_raises s1 s2 frames i j diff) as [_ Hx].
  rewrite H in Hx. exact Hx.
Qed.

Lemma dfs_never_index_error_witness :
  result (dfs_limited "12" "" 3 0 0 (-4)) = Raise ValueError
  /\ (ValueError = ValueError \/ ValueError = RecursionError).
Proof.
  split; [reflexivity|].
  apply (dfs_never_index_error "12" "" 3 0 0 (-4) ValueError). reflexivity.
Defined.

Example run_dfs_limited_past_the_end :
  dfs_limited "12" "" 3 7 0 (-4) = ([EvDfs 7 0 (-4)], Ret false).
Proof. reflexivity. Qed.

Example run_dfs_limited_out_of_frames :
  dfs_limited "ab" "ab" 2 0 0 0
  = ([EvDfs 0 0 0; EvDfs 1 1 0], Raise RecursionError).
Proof. reflexivity. Qed.

(** X12.  On any two strings of characters with code points below 256,
    inside the alphabet [a-z0-9] or not, [possiblyEquals] run with room for
    [frames] nested calls of [dfs] returns a boolean when the strings share
    fewer than [frames] leading letters, and the boolean is [True] exactly
    when the strings are equal and all their characters satisfy [isalpha]
    (uppercase letters match like lowercase ones, any other character makes
    the result [False]); when they share [frames] leading letters or more
    it raises RecursionError. *)
Theorem possiblyEquals_any_input (frames : nat) (s1 s2 : string) :
  (common_letters s1 s2 < frames ->
   exists b : bool,
     result (possiblyEquals_limited frames s1 s2) = Ret b
     /\ (b = true <-> s1 = s2 /\ all_chars isalpha s1 = true))
  /\ (frames <= common_letters s1 s2 ->
      result (possiblyEquals_limited frames s1 s2) = Raise RecursionError).
Proof.
  rewrite possiblyEquals_limited_result. split; intros H.
  - replace (common_letters s1 s2 <? frames) with true
      by (symmetry; apply Nat.ltb_lt; exact H).
    exists (sync s1 s2). split; [reflexivity | apply sync_true_iff].
  - replace (common_letters s1 s2 <? frames) with false
      by (symmetry; apply Nat.ltb_ge; exact H).
    reflexivity.
Qed.

Lemma possiblyEquals_any_input_witness :
  common_letters "AbC" "AbC" < 4
  /\ (exists b : bool,
         result (possiblyEquals_limited 4 "AbC" "AbC") = Ret b
         /\ (b = true <-> "AbC" = "AbC" /\ all_chars isalpha "AbC" = true))
  /\ 3 <= common_letters "AbC" "AbC"
  /\ result (possiblyEquals_limited 3 "AbC" "AbC") = Raise RecursionError.
Proof.
  split; [vm_compute; lia|]. split.
  - apply (possiblyEquals_any_input 4 "AbC" "AbC"). vm_compute. lia.
  - split; [vm_compute; lia|].
    apply (possiblyEquals_any_input 3 "AbC" "AbC"). vm_compute. lia.
Defined.

(* ================================================================== *)
(** ** The function discovery *)
(* ================================================================== *)

Import Discovery.

Example discover_matcher :
  discover [("__name__", data_value); ("possiblyEquals", function_at 3)]
  = Some (Selected Unique "possiblyEquals" (function_at 3)).
Proof. reflexivity. Qed.

Example discover_last_of_equal_lines :
  discover [("f", function_at 3); ("g", function_at 10);
            ("h", function_at 10); ("_x", function_at 30)]
  = Some (Selected LastDefined "h" (function_at 10)).
Proof. reflexivity. Qed.

(** A function called [name] is read after the loop variable took its
    place, and is not found. *)
Example discover_function_called_name :
  discover [("name", function_at 3)] = Some NotFound.
Proof. reflexivity. Qed.

(** At the key [obj] the script reads the object of the entry before it:
    the function [f] is listed twice, under its name and under [obj]. *)
Example user_functions_with_obj :
  user_functions [("f", function_at 3); ("obj", function_at 8)]
  = [("f", function_at 3); ("obj", function_at 3)].
Proof. reflexivity. Qed.

(** With a namespace that binds [len], the script calls that object. *)
Example discover_shadowed_len :
  discover [("helper", function_at 12); ("len", function_at 40)] = None.
Proof. reflexivity. Qed.

Lemma lookup_assign (k n : string) (v : pyobject) (g : list entry) :
  lookup n (assign k v g) = if String.eqb k n then Some v else lookup n g.
Proof.
  induction g as [|[m w] g IH]; simpl.
  - destruct (String.eqb k n); reflexivity.
  - destruct (String.eqb_spec m k) as [->|Hmk]; simpl.
    + destruct (String.eqb k n); reflexivity.
    + rewrite IH. destruct (String.eqb_spec m n) as [->|Hmn]; [|reflexivity].
      destruct (String.eqb_spec k n) as [->|_]; [contradiction | reflexivity].
Qed.

Lemma lookup_in (n : string) (v : pyobject) (g : list entry) :
  lookup n g = Some v -> In (n, v) g.
Proof.
  induction g as [|[m w] g IH]; simpl; [discriminate|].
  destruct (String.eqb_spec m n) as [->|_].
  - intros H. injection H as ->. left. reflexivity.
  - intros H. right. apply IH. exact H.
Qed.

Lemma name_in_spec (n : string) (names : list string) :
  name_in n names = true <-> In n names.
Proof.
  unfold name_in. rewrite existsb_exists. split.
  - intros [m [Hm E]]. apply String.eqb_eq in E. subst. exact Hm.
  - intros H. exists n. split; [exact H | apply String.eqb_refl].
Qed.

Lemma lookup_distinct (g : list entry) (n : string) (v : pyobject) :
  distinct_keys g = true -> In (n, v) g -> lookup n g = Some v.
Proof.
  induction g as [|[m w] g IH]; simpl; [contradiction|].
  intros Hd [H|H]; apply andb_true_iff in Hd; destruct Hd as [Hm Hd].
  - injection H as -> ->. rewrite String.eqb_refl. reflexivity.
  - destruct (String.eqb_spec m n) as [->|_]; [|apply IH; assumption].
    apply negb_true_iff in Hm.
    assert (Hin : name_in n (map fst g) = true).
    { apply name_in_spec. apply (in_map fst) in H. exact H. }
    rewrite Hin in Hm. discriminate.
Qed.

Lemma data_value_not_function (n : string) :
  is_user_function (n, data_value) = false.
Proof. reflexivity. Qed.

Section Scan.

Variable namespace : list entry.

Lemma scan_listed : forall all_names g acc,
  lookup "all_names" g = Some data_value ->
  lookup "user_functions" g = Some data_value ->
  (forall n, name_in n script_variables = false ->
             lookup n g = lookup n namespace) ->
  (forall n, In n all_names -> In n (map fst namespace)) ->
  Forall (listed namespace) acc ->
  Forall (listed namespace) (scan all_names g acc).
Proof.
  induction all_names as [|nm rest IH]; intros g acc Ha Hu Hg Hn Hacc;
    cbn [scan]; [exact Hacc|].
  set (g1 := assign "name" data_value g).
  assert (Ha1 : lookup "all_names" g1 = Some data_value)
    by (unfold g1; rewrite lookup_assign; exact Ha).
  assert (Hu1 : lookup "user_functions" g1 = Some data_value)
    by (unfold g1; rewrite lookup_assign; exact Hu).
  assert (Hname : lookup "name" g1 = Some data_value)
    by (unfold g1; rewrite lookup_assign; reflexivity).
  assert (Hg1 : forall n, name_in n script_variables = false ->
                          lookup n g1 = lookup n namespace).
  { intros n Hs. unfold g1. rewrite lookup_assign.
    destruct (String.eqb_spec "name" n) as [<-|_]; [discriminate | auto]. }
  assert (Hrest : forall n, In n rest -> In n (map fst namespace))
    by (intros n H; apply Hn; right; exact H).
  destruct (lookup nm g1) as [o|] eqn:Eo; [|apply IH; assumption].
  apply IH; try assumption.
  - rewrite lookup_assign. exact Ha1.
  - rewrite lookup_assign. exact Hu1.
  - intros n Hs. rewrite lookup_assign.
    destruct (String.eqb_spec "obj" n) as [<-|_]; [discriminate | auto].
  - destruct (is_user_function (nm, o)) eqn:Ef; [|exact Hacc].
    apply Forall_app. split; [exact Hacc|]. constructor; [|constructor].
    unfold listed. cbn [fst]. split; [exact Ef|].
    split; [apply Hn; left; reflexivity|].
    assert (Hdata : o <> data_value).
    { intros ->. rewrite data_value_not_function in Ef. discriminate. }
    assert (H3 : name_in nm ["all_names"; "user_functions"; "name"]%string
                 = false).
    { cbn [name_in existsb].
      destruct (String.eqb_spec nm "all_names") as [->|_];
        [rewrite Ha1 in Eo; injection Eo as <-; contradiction|].
      destruct (String.eqb_spec nm "user_functions") as [->|_];
        [rewrite Hu1 in Eo; injection Eo as <-; contradiction|].
      destruct (String.eqb_spec nm "name") as [->|_];
        [rewrite Hname in Eo; injection Eo as <-; contradiction|].
      reflexivity. }
    split; [exact H3|].
    intros Hobj. apply lookup_in. rewrite <- Hg1; [exact Eo|].
    unfold script_variables. cbn [name_in existsb] in *.
    destruct (String.eqb nm "all_names"); [discriminate|].
    destruct (String.eqb nm "user_functions"); [discriminate|].
    destruct (String.eqb nm "name"); [discriminate|].
    rewrite Hobj. reflexivity.
Qed.

Lemma user_functions_listed :
  Forall (listed namespace) (user_functions namespace).
Proof.
  unfold user_functions. apply scan_listed.
  - rewrite !lookup_assign. reflexivity.
  - rewrite !lookup_assign. reflexivity.
  - intros n Hs. rewrite !lookup_assign.
    destruct (String.eqb_spec "user_functions" n) as [<-|_]; [discriminate|].
    destruct (String.eqb_spec "all_names" n) as [<-|_]; [discriminate|].
    reflexivity.
  - auto.
  - constructor.
Qed.

(** On entries that are none of the script's variables the loop reads
    what the namespace holds. *)
Lemma scan_filter : forall rest g acc,
  (forall e, In e rest ->
             name_in (fst e) script_variables = false
             /\ lookup (fst e) g = Some (snd e)) ->
  scan (map fst rest) g acc = acc ++ filter is_user_function rest.
Proof.
  induction rest as [|[nm o] rest IH]; intros g acc H; cbn [map scan filter fst].
  - rewrite app_nil_r. reflexivity.
  - destruct (H (nm, o) (or_introl eq_refl)) as [Hs Hl]. cbn [fst snd] in *.
    assert (Hnm : String.eqb "name" nm = false /\ String.eqb "obj" nm = false).
    { split.
      - destruct (String.eqb_spec "name" nm) as [<-|_];
          [discriminate | reflexivity].
      - destruct (String.eqb_spec "obj" nm) as [<-|_];
          [discriminate | reflexivity]. }
    destruct Hnm as [Hn1 Hn2].
    rewrite lookup_assign, Hn1, Hl.
    rewrite IH.
    + destruct (is_user_function (nm, o)); [|reflexivity].
      rewrite <- app_assoc. reflexivity.
    + intros e He. destruct (H e (or_intror He)) as [Hs' Hl'].
      split; [exact Hs'|]. rewrite !lookup_assign.
      destruct (String.eqb_spec "obj" (fst e)) as [E|_];
        [rewrite <- E in Hs'; discriminate|].
      destruct (String.eqb_spec "name" (fst e)) as [E|_];
        [rewrite <- E in Hs'; discriminate|].
      exact Hl'.
Qed.

Lemma binds_false (names : list string) (e : entry) :
  binds names namespace = false -> In e namespace ->
  name_in (fst e) names = false.
Proof.
  unfold binds. intros Hb He.
  destruct (name_in (fst e) names) eqn:E; [|reflexivity].
  assert (Hex : existsb (fun e => name_in (fst e) names) namespace = true)
    by (apply existsb_exists; exists e; auto).
  rewrite Hex in Hb. discriminate.
Qed.

Lemma user_functions_filter :
  distinct_keys namespace = true ->
  binds script_variables namespace = false ->
  user_functions namespace = filter is_user_function namespace.
Proof.
  intros Hd Hb. unfold user_functions.
  rewrite scan_filter; [reflexivity|].
  intros [n v] He. pose proof (binds_false script_variables (n, v) Hb He) as Hs.
  split; [exact Hs|]. cbn [fst snd] in *. rewrite !lookup_assign.
  destruct (String.eqb_spec "user_functions" n) as [<-|_]; [discriminate|].
  destruct (String.eqb_spec "all_names" n) as [<-|_]; [discriminate|].
  apply lookup_distinct; assumption.
Qed.

End Scan.

Lemma first_match_some (keyword : string) (fs : list entry) (e : entry) :
  first_match keyword fs = Some e -> In e fs /\ matches keyword e = true.
Proof.
  induction fs as [|x fs IH]; simpl; [discriminate|].
  destruct (matches keyword x) eqn:Ex.
  - intros H. injection H as <-. auto.
  - intros H. destruct (IH H). auto.
Qed.

Lemma first_match_none (keyword : string) (fs : list entry) :
  (forall e, In e fs -> matches keyword e = false) ->
  first_match keyword fs = None.
Proof.
  induction fs as [|x fs IH]; intros H; simpl; [reflexivity|].
  rewrite (H x (or_introl eq_refl)). apply IH.
  intros e He. apply H. right. exact He.
Qed.

Lemma first_match_split (keyword : string) (pre post : list entry)
  (e : entry) :
  (forall e', In e' pre -> matches keyword e' = false) ->
  matches keyword e = true ->
  first_match keyword (pre ++ e :: post) = Some e.
Proof.
  induction pre as [|x pre IH]; intros Hpre He; simpl.
  - rewrite He. reflexivity.
  - rewrite (Hpre x (or_introl eq_refl)). apply IH; [|exact He].
    intros e' He'. apply Hpre. right. exact He'.
Qed.

Lemma by_keyword_in (fs : list entry) : forall keywords chosen how e,
  by_keyword keywords fs chosen = Some (how, e) ->
  chosen = Some (how, e) \/ In e fs.
Proof.
  induction keywords as [|k ks IH]; intros chosen how e; cbn [by_keyword];
    [auto|].
  destruct (first_match k fs) as [x|] eqn:Ex.
  - destruct (is_true (Some (Keyword k, x))).
    + intros H. injection H as _ <-. right.
      apply (first_match_some k fs x Ex).
    + intros H. apply IH in H. destruct H as [H|H]; [|auto].
      injection H as _ <-. right. apply (first_match_some k fs x Ex).
  - destruct (is_true chosen); [auto | apply IH].
Qed.

Lemma by_keyword_skip (ks1 ks2 : list string) (fs : list entry) :
  (forall k e, In k ks1 -> In e fs -> matches k e = false) ->
  by_keyword (ks1 ++ ks2) fs None = by_keyword ks2 fs None.
Proof.
  induction ks1 as [|k ks1 IH]; intros H; cbn [app by_keyword];
    [reflexivity|].
  rewrite first_match_none.
  - cbn [is_true]. apply IH.
    intros k' e Hk He. apply H; [right; exact Hk | exact He].
  - intros e He. apply H; [left; reflexivity | exact He].
Qed.

Lemma with_line_in (fs : list entry) (l : nat) (e : entry) :
  In (l, e) (with_line fs) ->
  In e fs /\ co_firstlineno (snd e) = Some l.
Proof.
  induction fs as [|[n f] fs IH]; simpl; [contradiction|].
  destruct (has_code f); [destruct (co_firstlineno f) as [k|] eqn:Ek|].
  - intros [H|H].
    + injection H as <- <-. split; [left; reflexivity | exact Ek].
    + destruct (IH H). auto.
  - intros H. destruct (IH H). auto.
  - intros H. destruct (IH H). auto.
Qed.

Lemma with_line_all (fs : list entry) (e : entry) :
  In e fs -> has_code (snd e) = true -> co_firstlineno (snd e) <> None ->
  In (line_of e, e) (with_line fs).
Proof.
  induction fs as [|[n f] fs IH]; simpl; [contradiction|].
  intros [<-|He] Hc Hl.
  - simpl in Hc, Hl. unfold line_of. simpl. rewrite Hc.
    destruct (co_firstlineno f); [left; reflexivity | contradiction].
  - specialize (IH He Hc Hl).
    destruct (has_code f); [destruct (co_firstlineno f)|];
      try (right; exact IH); exact IH.
Qed.

Lemma insert_by_line_in (x y : nat * entry) (l : list (nat * entry)) :
  In y (insert_by_line x l) <-> y = x \/ In y l.
Proof.
  induction l as [|z l IH]; simpl.
  - split; intros [H|H]; auto.
  - destruct (fst z <=? fst x); simpl; [rewrite IH|]; intuition auto.
Qed.

Lemma fold_insert_in (y : nat * entry) (l : list (nat * entry)) :
  forall acc,
  In y (fold_left (fun sorted x => insert_by_line x sorted) l acc)
  <-> In y l \/ In y acc.
Proof.
  induction l as [|x l IH]; intros acc; simpl.
  - tauto.
  - rewrite IH, insert_by_line_in. intuition auto.
Qed.

Lemma sort_by_line_in (y : nat * entry) (l : list (nat * entry)) :
  In y (sort_by_line l) <-> In y l.
Proof. unfold sort_by_line. rewrite fold_insert_in. simpl. tauto. Qed.

Lemma insert_by_line_sorted (x : nat * entry) (l : list (nat * entry)) :
  by_line_sorted l -> by_line_sorted (insert_by_line x l).
Proof.
  induction 1 as [|z l Hz Hl IH]; simpl.
  - repeat constructor.
  - destruct (Nat.leb_spec (fst z) (fst x)) as [Hle|Hgt].
    + constructor; [|exact IH].
      apply Forall_forall. intros y Hy. apply insert_by_line_in in Hy.
      destruct Hy as [->|Hy]; [exact Hle|].
      rewrite Forall_forall in Hz. apply Hz. exact Hy.
    + constructor; [|constructor; assumption].
      constructor; [lia|].
      rewrite Forall_forall in *. intros y Hy. specialize (Hz y Hy). lia.
Qed.

Lemma sort_by_line_sorted (l : list (nat * entry)) :
  by_line_sorted (sort_by_line l).
Proof.
  unfold sort_by_line.
  assert (H : forall acc, by_line_sorted acc ->
            by_line_sorted
              (fold_left (fun sorted x => insert_by_line x sorted) l acc)).
  { induction l as [|x l IH]; intros acc Hacc; simpl; [exact Hacc|].
    apply IH. apply insert_by_line_sorted. exact Hacc. }
  apply H. constructor.
Qed.

Lemma last_in {A} (l : list A) (d : A) : l <> [] -> In (last l d) l.
Proof.
  induction l as [|x l IH]; intros H; [contradiction|].
  destruct l as [|y l]; [left; reflexivity|].
  right. apply IH. discriminate.
Qed.

Lemma last_sorted_max (l : list (nat * entry)) (d : nat * entry) :
  by_line_sorted l -> forall y, In y l -> fst y <= fst (last l d).
Proof.
  induction 1 as [|x l Hx Hl IH]; intros y Hy; [contradiction|].
  destruct l as [|z l].
  - destruct Hy as [<-|[]]. simpl. lia.
  - change (last (x :: z :: l) d) with (last (z :: l) d).
    destruct Hy as [<-|Hy]; [|apply IH; exact Hy].
    rewrite Forall_forall in Hx. apply Hx. apply last_in. discriminate.
Qed.

Lemma last_sort_in (x : nat * entry) (xs : list (nat * entry)) :
  In (last (sort_by_line (x :: xs)) x) (x :: xs).
Proof.
  apply sort_by_line_in. apply last_in.
  intros Hnil. assert (Hx : In x (sort_by_line (x :: xs)))
    by (apply sort_by_line_in; left; reflexivity).
  rewrite Hnil in Hx. contradiction.
Qed.

Lemma by_line_in (first : entry) (others : list entry) (how : reason)
  (name : string) (func : pyobject) :
  by_line first others = Selected how name func ->
  In (name, func) (first :: others).
Proof.
  unfold by_line. destruct (with_line (first :: others)) as [|x xs] eqn:Ew.
  - destruct first as [n f]. intros H. injection H as _ <- <-.
    left. reflexivity.
  - pose proof (last_sort_in x xs) as Hin.
    destruct (last (sort_by_line (x :: xs)) x) as [l [n f]].
    intros H. injection H as _ <- <-.
    rewrite <- Ew in Hin. apply with_line_in in Hin. apply Hin.
Qed.

Lemma by_line_found (first : entry) (others : list entry) :
  by_line first others <> NotFound.
Proof.
  unfold by_line. destruct (with_line (first :: others)) as [|x xs].
  - discriminate.
  - destruct (last (sort_by_line (x :: xs)) x) as [l [n f]]. discriminate.
Qed.

Lemma select_many (e1 e2 : entry) (fs : list entry) :
  select (e1 :: e2 :: fs)
  = match by_keyword algorithm_keywords (e1 :: e2 :: fs) None with
    | Some (how, (name, func)) =>
        if truthy func then Selected how name func
        else by_line e1 (e2 :: fs)
    | None => by_line e1 (e2 :: fs)
    end.
Proof. destruct e1 as [n f]. reflexivity. Qed.

Lemma select_in (fs : list entry) (how : reason) (name : string)
  (func : pyobject) :
  select fs = Selected how name func -> In (name, func) fs.
Proof.
  destruct fs as [|e1 [|e2 fs]].
  - discriminate.
  - destruct e1 as [n f]. intros H. injection H as _ <- <-.
    left. reflexivity.
  - rewrite select_many.
    destruct (by_keyword algorithm_keywords (e1 :: e2 :: fs) None)
      as [[how' [n f]]|] eqn:Ek; [|apply by_line_in].
    destruct (truthy f); [|apply by_line_in].
    intros H. injection H as _ <- <-.
    apply by_keyword_in in Ek. destruct Ek as [Ek|Ek];
      [discriminate | exact Ek].
Qed.

Lemma select_not_found (fs : list entry) : select fs = NotFound -> fs = [].
Proof.
  destruct fs as [|e1 [|e2 fs]]; [reflexivity| |].
  - destruct e1 as [n f]. discriminate.
  - rewrite select_many.
    destruct (by_keyword algorithm_keywords (e1 :: e2 :: fs) None)
      as [[how' [n f]]|];
      [destruct (truthy f); [discriminate|]|];
      intros H; apply by_line_found in H; contradiction.
Qed.

Lemma discover_some (namespace : list entry) (r : selection) :
  discover namespace = Some r ->
  binds called_builtins namespace = false
  /\ r = select (user_functions namespace).
Proof.
  unfold discover. destruct (binds called_builtins namespace);
    [discriminate|].
  intros H. injection H as <-. auto.
Qed.

Lemma discover_unshadowed (namespace : list entry) :
  binds called_builtins namespace = false ->
  discover namespace = Some (select (user_functions namespace)).
Proof. unfold discover. intros ->. reflexivity. Qed.

(** X16.  Whenever the script selects a function, the name it selects is
    a key of the namespace that does not start with an underscore and is
    in neither list of excluded names, the object it selects is callable
    and carries [__name__] and [__code__], and the name is none of
    [all_names], [user_functions] and [name], which the script binds to
    data before it reads them.  Unless the name is [obj], the selected
    pair is an entry of the namespace. *)
Theorem discover_sound (namespace : list entry) (how : reason)
  (name : string) (func : pyobject) :
  discover namespace = Some (Selected how name func) ->
  In name (map fst namespace)
  /\ callable func = true /\ has_name func = true /\ has_code func = true
  /\ startswith_underscore name = false
  /\ name_in name excluded_builtins = false
  /\ name_in name excluded_modules = false
  /\ name_in name ["all_names"; "user_functions"; "name"]%string = false
  /\ (String.eqb name "obj" = false -> In (name, func) namespace).
Proof.
  intros H. apply discover_some in H. destruct H as [_ H].
  symmetry in H. apply select_in in H.
  pose proof (user_functions_listed namespace) as Hl.
  rewrite Forall_forall in Hl. specialize (Hl _ H).
  destruct Hl as (Hf & Hkey & H3 & Hobj). cbn [fst] in *.
  split; [exact Hkey|].
  unfold is_user_function in Hf.
  repeat (apply andb_true_iff in Hf; destruct Hf as [Hf ?]).
  repeat match goal with
         | H : negb _ = true |- _ => apply negb_true_iff in H
         end.
  auto 12.
Qed.

Lemma discover_sound_witness :
  discover [("max", function_at 1); ("_helper", function_at 5);
            ("name", function_at 7); ("matcher", function_at 9)]
  = Some (Selected Unique "matcher" (function_at 9))
  /\ In "matcher"%string
        (map fst [("max"%string, function_at 1);
                  ("_helper"%string, function_at 5);
                  ("name"%string, function_at 7);
                  ("matcher"%string, function_at 9)])
  /\ callable (function_at 9) = true /\ has_name (function_at 9) = true
  /\ has_code (function_at 9) = true
  /\ startswith_underscore "matcher" = false
  /\ name_in "matcher" excluded_builtins = false
  /\ name_in "matcher" excluded_modules = false
  /\ name_in "matcher" ["all_names"; "user_functions"; "name"]%string = false
  /\ (String.eqb "matcher" "obj" = false ->
      In ("matcher"%string, function_at 9)
         [("max"%string, function_at 1); ("_helper"%string, function_at 5);
          ("name"%string, function_at 7); ("matcher"%string, function_at 9)]).
Proof.
  split; [reflexivity|].
  apply (discover_sound
           [("max"%string, function_at 1); ("_helper"%string, function_at 5);
            ("name"%string, function_at 7); ("matcher"%string, function_at 9)]
           Unique "matcher" (function_at 9)).
  reflexivity.
Defined.

(** X17.  On a namespace with distinct keys that binds none of the names
    the script assigns while it scans ([all_names], [user_functions],
    [name], [obj]) and none of the built-ins it calls, the script ends
    without a selected function exactly when no entry passes its test; as
    soon as one entry passes, some function is selected. *)
Theorem discover_not_found_iff (namespace : list entry) :
  distinct_keys namespace = true ->
  binds script_variables namespace = false ->
  binds called_builtins namespace = false ->
  (discover namespace = Some NotFound
   <-> forallb (fun e => negb (is_user_function e)) namespace = true).
Proof.
  intros Hd Hs Hb. rewrite (discover_unshadowed namespace Hb).
  rewrite (user_functions_filter namespace Hd Hs).
  clear Hd Hs Hb. split.
  - intros H. injection H as H. apply select_not_found in H.
    induction namespace as [|e ns IH]; [reflexivity|].
    simpl in *. destruct (is_user_function e); [discriminate|].
    apply IH. exact H.
  - intros H. replace (filter is_user_function namespace) with (@nil entry);
      [reflexivity|].
    induction namespace as [|e ns IH]; [reflexivity|].
    simpl in *. destruct (is_user_function e); [discriminate|].
    apply IH. exact H.
Qed.

Lemma discover_not_found_iff_witness :
  distinct_keys [("__name__", data_value); ("max", function_at 4);
                 ("_run", function_at 9)] = true
  /\ binds script_variables [("__name__", data_value); ("max", function_at 4);
                             ("_run", function_at 9)] = false
  /\ binds called_builtins [("__name__", data_value); ("max", function_at 4);
                            ("_run", function_at 9)] = false
  /\ (discover [("__name__", data_value); ("max", function_at 4);
                ("_run", function_at 9)] = Some NotFound
      <-> forallb (fun e => negb (is_user_function e))
                  [("__name__"%string, data_value);
                   ("max"%string, function_at 4);
                   ("_run"%string, function_at 9)] = true).
Proof.
  split; [reflexivity|]. split; [reflexivity|]. split; [reflexivity|].
  apply (discover_not_found_iff
           [("__name__"%string, data_value); ("max"%string, function_at 4);
            ("_run"%string, function_at 9)]); reflexivity.
Defined.

Lemma no_match_spec (keywords : list string) (fs : list entry) :
  no_match keywords fs = true ->
  forall k e, In k keywords -> In e fs -> matches k e = false.
Proof.
  unfold no_match. rewrite forallb_forall. intros H k e Hk He.
  specialize (H k Hk). rewrite forallb_forall in H.
  apply negb_true_iff. apply H. exact He.
Qed.

(** X18.  Keywords come before definition order.  On a namespace that
    binds none of the built-ins the script calls, with two listed
    functions or more, the function selected is the first one, in the
    order of the list, whose lowercased name contains the first keyword of
    line 42 that any listed name contains, provided that function is true
    in a condition: a function matching an earlier keyword wins over every
    function matching only later ones, wherever they stand. *)
Theorem discover_keyword_priority (namespace : list entry)
  (ks1 ks2 : list string) (k : string) (pre post : list entry) (e : entry) :
  binds called_builtins namespace = false ->
  algorithm_keywords = ks1 ++ k :: ks2 ->
  user_functions namespace = pre ++ e :: post ->
  2 <= length (user_functions namespace) ->
  no_match ks1 (user_functions namespace) = true ->
  no_match [k] pre = true ->
  matches k e = true ->
  truthy (snd e) = true ->
  discover namespace = Some (Selected (Keyword k) (fst e) (snd e)).
Proof.
  intros Hb Hk Hfs Hlen H1 Hpre He Ht.
  rewrite (discover_unshadowed namespace Hb). f_equal.
  destruct (user_functions namespace) as [|e1 [|e2 fs]] eqn:Efs;
    simpl in Hlen; try lia.
  rewrite select_many, Hk, by_keyword_skip
    by (apply no_match_spec; exact H1).
  cbn [by_keyword]. rewrite Hfs, first_match_split; [|intros e' He'|exact He].
  - destruct e as [n f]. cbn [is_true snd fst] in *. rewrite Ht.
    cbv iota. rewrite Ht. reflexivity.
  - apply (no_match_spec [k] pre Hpre); [left; reflexivity | exact He'].
Qed.

Lemma discover_keyword_priority_witness :
  discover [("solve_puzzle", function_at 1); ("_private", function_at 5);
            ("best_solution", function_at 9)]
  = Some (Selected (Keyword "solution") "best_solution" (function_at 9)).
Proof.
  apply (discover_keyword_priority
           [("solve_puzzle"%string, function_at 1);
            ("_private"%string, function_at 5);
            ("best_solution"%string, function_at 9)]
           [] ["solve"; "algorithm"; "main"; "process"; "calculate";
               "compute"; "find"; "search"; "sort"; "optimize"]%string
           "solution"
           [("solve_puzzle"%string, function_at 1)] []
           ("best_solution"%string, function_at 9));
    first [reflexivity | vm_compute; lia].
Defined.

(** X19.  Without a keyword, the last definition wins.  On a namespace
    that binds none of the built-ins the script calls, with two listed
    functions or more, none of whose names contains a keyword, and a line
    number on each, the function selected is a listed function whose line
    number is the greatest. *)
Theorem discover_last_defined (namespace : list entry) :
  binds called_builtins namespace = false ->
  2 <= length (user_functions namespace) ->
  no_match algorithm_keywords (user_functions namespace) = true ->
  forallb has_line (user_functions namespace) = true ->
  exists name func,
    discover namespace = Some (Selected LastDefined name func)
    /\ In (name, func) (user_functions namespace)
    /\ Forall (fun e => line_of e <= line_of (name, func))
              (user_functions namespace).
Proof.
  intros Hb Hlen Hkw Hline. rewrite (discover_unshadowed namespace Hb).
  assert (Hcode : forall e, In e (user_functions namespace) ->
                            has_code (snd e) = true).
  { intros [n f] He. pose proof (user_functions_listed namespace) as Hl.
    rewrite Forall_forall in Hl. destruct (Hl _ He) as [Hf _].
    unfold is_user_function in Hf. apply andb_true_iff in Hf. apply Hf. }
  destruct (user_functions namespace) as [|e1 [|e2 fs]] eqn:Efs;
    simpl in Hlen; try lia.
  rewrite select_many.
  set (all := e1 :: e2 :: fs) in *.
  replace (by_keyword algorithm_keywords all None) with (@None (reason * entry)).
  2:{ symmetry. rewrite <- (app_nil_r algorithm_keywords).
      rewrite by_keyword_skip by (apply no_match_spec; exact Hkw).
      reflexivity. }
  assert (Hall : forall e, In e all -> In (line_of e, e) (with_line all)).
  { intros e He. apply with_line_all; [exact He | apply Hcode; exact He |].
    rewrite forallb_forall in Hline. specialize (Hline e He).
    unfold has_line in Hline. destruct (co_firstlineno (snd e));
      [discriminate | discriminate]. }
  unfold by_line. fold all. destruct (with_line all) as [|x xs] eqn:Ew.
  { exfalso. apply (Hall e1). left. reflexivity. }
  pose proof (last_sort_in x xs) as Hlast.
  pose proof (last_sorted_max (sort_by_line (x :: xs)) x
                (sort_by_line_sorted (x :: xs))) as Hmax.
  destruct (last (sort_by_line (x :: xs)) x) as [l [n f]].
  rewrite <- Ew in Hlast. apply with_line_in in Hlast.
  destruct Hlast as [Hin Hl]. simpl in Hl.
  exists n, f. split; [reflexivity|]. split; [exact Hin|].
  apply Forall_forall. intros e He.
  specialize (Hmax (line_of e, e)). simpl in Hmax.
  unfold line_of at 2. simpl. rewrite Hl. apply Hmax.
  apply sort_by_line_in. apply Hall. exact He.
Qed.

Lemma discover_last_defined_witness :
  exists name func,
    discover [("helper", function_at 12); ("max", function_at 40);
              ("possiblyEquals", function_at 3); ("check", function_at 7)]
    = Some (Selected LastDefined name func)
    /\ In (name, func)
          (user_functions
             [("helper"%string, function_at 12); ("max"%string, function_at 40);
              ("possiblyEquals"%string, function_at 3);
              ("check"%string, function_at 7)])
    /\ Forall (fun e => line_of e <= line_of (name, func))
          (user_functions
             [("helper"%string, function_at 12); ("max"%string, function_at 40);
              ("possiblyEquals"%string, function_at 3);
              ("check"%string, function_at 7)]).
Proof.
  apply (discover_last_defined
           [("helper"%string, function_at 12); ("max"%string, function_at 40);
            ("possiblyEquals"%string, function_at 3);
            ("check"%string, function_at 7)]);
    first [reflexivity | vm_compute; lia].
Defined.
